(** * Audio_to_Text.py: a shallow embedding and its verified properties

    The program is a Streamlit script around the Whisper speech model.  The
    embedding follows the script: Python strings are sequences of code
    points, the two timestamp renderings are the f-strings of the source,
    the subtitle loop is the [for]/[+=] loop of the source, and the button
    handler is the [try]/[except] block of the source, run in a monad of
    state and exceptions over a world that holds the model cache, the
    scratch files and the trace of everything the script did. *)

From Stdlib Require Import ZArith NArith QArith Qround String Ascii List.
From Stdlib Require Import DecimalString DecimalPos DecimalZ Lia Lqa.
From stdpp Require Import base option list gmap sets relations.

Local Open Scope N_scope.

(** ** Python [str]: a sequence of Unicode code points *)

Abbreviation str := (list N).

(** Literals of the script are written as Rocq strings, which hold the
    UTF-8 bytes of the source file; [py] decodes them to code points. *)
Fixpoint utf8_decode (bs : list N) : str :=
  match bs with
  | [] => []
  | b :: r =>
      if b <? 128 then b :: utf8_decode r
      else if b <? 224 then
        match r with
        | c1 :: r1 => ((b mod 32) * 64 + c1 mod 64) :: utf8_decode r1
        | _ => []
        end
      else if b <? 240 then
        match r with
        | c1 :: c2 :: r2 =>
            ((b mod 16) * 4096 + (c1 mod 64) * 64 + c2 mod 64) :: utf8_decode r2
        | _ => []
        end
      else
        match r with
        | c1 :: c2 :: c3 :: r3 =>
            ((b mod 8) * 262144 + (c1 mod 64) * 4096 + (c2 mod 64) * 64 + c3 mod 64)
              :: utf8_decode r3
        | _ => []
        end
  end.

Definition py (s : string) : str :=
  utf8_decode (map N_of_ascii (list_ascii_of_string s)).

Definition LF : N := 10.
Definition COLON : N := 58.

(** [str.isspace] on one code point: the code points Python's [str.strip()]
    removes (bidirectional class WS, B or S, or category Zs). *)
Definition isspace (c : N) : bool :=
  ((9 <=? c) && (c <=? 13)) || ((28 <=? c) && (c <=? 32))
  || (c =? 133) || (c =? 160) || (c =? 5760)
  || ((8192 <=? c) && (c <=? 8202))
  || (c =? 8232) || (c =? 8233) || (c =? 8239) || (c =? 8287) || (c =? 12288).

Fixpoint lstrip (s : str) : str :=
  match s with
  | [] => []
  | c :: r => if isspace c then lstrip r else s
  end.

Definition rstrip (s : str) : str := reverse (lstrip (reverse s)).

(** [s.strip()] with no argument. *)
Definition strip (s : str) : str := rstrip (lstrip s).

(** ** Integers in f-strings *)

(** [str(n)] for an [int]. *)
Definition str_int (n : Z) : str :=
  map N_of_ascii (list_ascii_of_string (NilZero.string_of_int (Z.to_int n))).

(** [f"{n:02}"] and [f"{n:02d}"] for an [int]: zero fill to width 2, the
    sign counted in the width and written before the zeros. *)
Definition zfill (w : nat) (digits : str) : str :=
  repeat 48 (w - length digits)%nat ++ digits.

Definition fmt_02 (n : Z) : str :=
  if (n <? 0)%Z then 45 :: zfill 1 (str_int (Z.abs n))
  else zfill 2 (str_int n).

(** ** Floats of the timestamps

    A finite Python float is a binary rational, and for [0 <= x < 2^53]
    both [x // 60] and [x % 60] are computed without rounding, so the
    timestamps are modelled as rationals. *)

(** [int(x // y)], for [y > 0]: floor division.  The float result is this
    number for [0 <= x < 2^53]; outside that range Python rounds. *)
Definition floordiv (x y : Q) : Z := Qfloor (x / y).

(** [x % y], for [y > 0]: the remainder has the sign of the divisor.  The
    float result is this number for [0 <= x < 2^53]; outside that range
    Python rounds (a tiny negative [x] gives [60.0], not a number below
    60). *)
Definition pymod (x y : Q) : Q := (x - y * inject_Z (floordiv x y))%Q.

(** [int(x)] truncates toward zero. *)
Definition int (x : Q) : Z :=
  if Qle_bool 0 x then Qfloor x else Qceiling x.

(** ** The Whisper result *)

(** One element of [result["segments"]]. *)
Record Segment := {
  start : Q;
  end_ : Q;
  text : str
}.

(** The dictionary returned by [model.transcribe]; [res_language] is [None]
    when the key ["language"] is absent. *)
Record Result := {
  res_text : str;
  res_language : option str;
  res_segments : list Segment
}.

(** ** Output formatting (lines 144--174) *)

(** The plain-text artifact: [data=result["text"]]. *)
Definition to_plain_text (result : Result) : str := res_text result.

(** [f"{int(t//60):02}:{int(t%60):02}:00"], one side of the arrow. *)
Definition srt_time (t : Q) : str :=
  fmt_02 (floordiv t 60) ++ py ":" ++ fmt_02 (int (pymod t 60)) ++ py ":00".

(** The string added to [srt_output] for segment [seg] with number [i]. *)
Definition srt_entry (i : Z) (seg : Segment) : str :=
  str_int i ++ [LF]
    ++ srt_time (start seg) ++ py " --> " ++ srt_time (end_ seg) ++ [LF]
    ++ strip (text seg) ++ [LF; LF].

(** [for i, seg in enumerate(result["segments"], 1): srt_output += ...] *)
Fixpoint srt_loop (i : Z) (segs : list Segment) (srt_output : str) : str :=
  match segs with
  | [] => srt_output
  | seg :: rest => srt_loop (i + 1) rest (srt_output ++ srt_entry i seg)
  end.

Definition to_subtitle_text (result : Result) : str :=
  srt_loop 1 (res_segments result) [].

(** [f"{int(t//60)}:{int(t%60):02d}"] of the segment view. *)
Definition view_time (t : Q) : str :=
  str_int (floordiv t 60) ++ py ":" ++ fmt_02 (int (pymod t 60)).

(** The markdown line of the segment view. *)
Definition view_line (seg : Segment) : str :=
  py "**[" ++ view_time (start seg) ++ py " - " ++ view_time (end_ seg)
    ++ py "]** " ++ text seg.

(** ** Exceptions, the world and the monad of the script *)

(** An instance of [Exception]: its class name and [str(e)]. *)
Record Exn := {
  exn_class : str;
  exn_str : str
}.

(** A loaded Whisper model: a Python object, identified by [model_id]. *)
Record Model := {
  model_id : nat;
  model_name : str
}.

(** Everything the script does to the outside, in the order it does it:
    the Streamlit elements it draws and the calls it makes. *)
Inductive Event :=
  | st_spinner (body : str)
  | st_success (body : str)
  | st_info (body : str)
  | st_error (body : str)
  | st_subheader (body : str)
  | st_text_area (label value : str)
  | st_columns (n : Z)
  | st_download_button (label data file_name mime : str)
  | st_expander (label : str)
  | st_markdown (body : str)
  | call_load_model (name : str)
  | call_NamedTemporaryFile (suffix : str)
  | call_write (path : str) (data : list N)
  | call_transcribe (model : Model) (path : str) (language : option str) (task : str)
  | call_unlink (path : str).

Record World := {
  model_cache : gmap str Model;
  files : gset str;
  next_id : nat;
  trace : list Event
}.

Definition log (ev : Event) (w : World) : World :=
  {| model_cache := model_cache w; files := files w; next_id := next_id w;
     trace := trace w ++ [ev] |}.

Inductive Outcome (A : Type) :=
  | Returned (a : A)
  | Raised (e : Exn).
Arguments Returned {A} a.
Arguments Raised {A} e.

Definition M (A : Type) : Type := World -> Outcome A * World.

#[global] Instance M_ret : MRet M := fun A a w => (Returned a, w).
#[global] Instance M_bind : MBind M := fun A B f c w =>
  match c w with
  | (Returned a, w1) => f a w1
  | (Raised e, w1) => (Raised e, w1)
  end.

Definition raise {A} (e : Exn) : M A := fun w => (Raised e, w).

(** [try: body / except Exception as e: handler(e)] *)
Definition try_except {A} (body : M A) (handler : Exn -> M A) : M A := fun w =>
  match body w with
  | (Returned a, w1) => (Returned a, w1)
  | (Raised e, w1) => handler e w1
  end.

(** A Streamlit element: drawn, nothing returned. *)
Definition st (ev : Event) : M unit := fun w => (Returned tt, log ev w).

(** [for x in xs: body(x)] *)
Fixpoint for_each {A} (xs : list A) (body : A -> M unit) : M unit :=
  match xs with
  | [] => mret tt
  | x :: rest => _ ← body x; for_each rest body
  end.

(** [@st.cache_resource] around a function of one string argument: the
    value is computed on the first call for an argument and stored under
    it; a later call with the same argument returns the stored object and
    does not run the function; a call that raises stores nothing. *)
Definition cache_resource (f : str -> M Model) : str -> M Model := fun key w =>
  match model_cache w !! key with
  | Some m => (Returned m, w)
  | None =>
      match f key w with
      | (Returned m, w1) =>
          (Returned m,
           {| model_cache := <[key := m]> (model_cache w1); files := files w1;
              next_id := next_id w1; trace := trace w1 |})
      | (Raised e, w1) => (Raised e, w1)
      end
  end.

(** The sidebar (lines 29--69). *)
Definition model_sizes : list str :=
  [py "tiny"; py "base"; py "small"; py "medium"; py "large"].

Definition languages : list (str * option str) :=
  [ (py "Auto-detect", None);
    (py "English", Some (py "en"));
    (py "Spanish", Some (py "es"));
    (py "French", Some (py "fr"));
    (py "German", Some (py "de"));
    (py "Italian", Some (py "it"));
    (py "Portuguese", Some (py "pt"));
    (py "Dutch", Some (py "nl"));
    (py "Russian", Some (py "ru"));
    (py "Chinese", Some (py "zh"));
    (py "Japanese", Some (py "ja"));
    (py "Korean", Some (py "ko"));
    (py "Arabic", Some (py "ar"));
    (py "Hindi", Some (py "hi"));
    (py "Turkish", Some (py "tr"));
    (py "Polish", Some (py "pl"));
    (py "Swedish", Some (py "sv"));
    (py "Danish", Some (py "da"));
    (py "Norwegian", Some (py "no"));
    (py "Finnish", Some (py "fi")) ].

(** [d[key]] on a dictionary literal: [None] when the key is missing. *)
Fixpoint getitem {V} (d : list (str * V)) (key : str) : option V :=
  match d with
  | [] => None
  | (k, v) :: rest => if decide (k = key) then Some v else getitem rest key
  end.

(** The widgets' values: what the user selected when the button is
    pressed. *)
Record Settings := {
  model_size : str;
  selected_language : str;
  translate_to_english : bool
}.

(** The values of the widgets the user has not touched: [index=2] of the
    model list, the first language option, an unchecked checkbox. *)
Definition default_settings : Settings :=
  {| model_size := nth 2 model_sizes [];
     selected_language := nth 0 (map fst languages) [];
     translate_to_english := false |}.

(** [uploaded_file]: its [name] and [getvalue()]. *)
Record UploadedFile := {
  name : str;
  getvalue : list N
}.

(** Line 110: [task_type = "translate" if translate_to_english else
    "transcribe"]. *)
Definition task_type (translate_to_english : bool) : str :=
  if translate_to_english then py "translate" else py "transcribe".

(** The two spinners (lines 99 and 108). *)
Definition spinner_loading : Event :=
  st_spinner (py "Loading Whisper model...").

Definition spinner_transcribing : Event :=
  st_spinner (py "Transcribing... this may take a few minutes ⏳").

(** ** The script against its environment *)

Section Script.

(** What the script cannot decide: whether a call into Whisper, the file
    system or the standard library fails, and with what. *)
Variable load_model_error : str -> World -> option Exn.
Variable tempfile_result : str -> World -> Exn + str.
Variable write_error : str -> list N -> World -> option Exn.
Variable transcribe_result :
  Model -> str -> option str -> str -> World -> Exn + Result.
Variable unlink_error : str -> World -> option Exn.

(** Library functions on strings the script calls: [Path(n).suffix],
    [s.upper()] and [repr(s)]. *)
Variable path_suffix : str -> str.
Variable upper : str -> str.
Variable repr : str -> str.

(** [whisper.load_model(name)]: a new model object, or an exception. *)
Definition whisper_load_model (name_ : str) : M Model := fun w =>
  let w1 := log (call_load_model name_) w in
  match load_model_error name_ w with
  | Some e => (Raised e, w1)
  | None =>
      (Returned {| model_id := next_id w1; model_name := name_ |},
       {| model_cache := model_cache w1; files := files w1;
          next_id := S (next_id w1); trace := trace w1 |})
  end.

(** Lines 77--81. *)
Definition load_whisper_model : str -> M Model :=
  cache_resource whisper_load_model.

(** Lines 103--105: [NamedTemporaryFile(delete=False, suffix=...)] creates
    the file; the write may fail after that, and the file stays. *)
Definition save_temporary_file (suffix : str) (data : list N) : M str := fun w =>
  let w1 := log (call_NamedTemporaryFile suffix) w in
  match tempfile_result suffix w with
  | inl e => (Raised e, w1)
  | inr tmp_path =>
      let w2 :=
        log (call_write tmp_path data)
          {| model_cache := model_cache w1; files := {[tmp_path]} ∪ files w1;
             next_id := next_id w1; trace := trace w1 |} in
      match write_error tmp_path data w with
      | Some e => (Raised e, w2)
      | None => (Returned tmp_path, w2)
      end
  end.

(** [languages[selected_language]] *)
Definition languages_getitem (key : str) : M (option str) :=
  match getitem languages key with
  | Some v => mret v
  | None => raise {| exn_class := py "KeyError"; exn_str := repr key |}
  end.

(** [model.transcribe(tmp_path, language=..., task=..., verbose=False)] *)
Definition model_transcribe (model : Model) (tmp_path : str)
    (language : option str) (task : str) : M Result := fun w =>
  let w1 := log (call_transcribe model tmp_path language task) w in
  match transcribe_result model tmp_path language task w with
  | inl e => (Raised e, w1)
  | inr result => (Returned result, w1)
  end.

(** [os.unlink(tmp_path)] *)
Definition os_unlink (tmp_path : str) : M unit := fun w =>
  let w1 := log (call_unlink tmp_path) w in
  match unlink_error tmp_path w with
  | Some e => (Raised e, w1)
  | None =>
      (Returned tt,
       {| model_cache := model_cache w1; files := files w1 ∖ {[tmp_path]};
          next_id := next_id w1; trace := trace w1 |})
  end.

(** Lines 124--174: the results on the page. *)
Definition display_results (uploaded_file : UploadedFile) (result : Result)
    : M unit :=
  _ ← st (st_success (py "✅ Transcription completed successfully!"));
  let detected_lang := upper (default (py "Unknown") (res_language result)) in
  _ ← st (st_info (py "**Detected Language:** " ++ detected_lang));
  _ ← st (st_subheader (py "📝 Transcription Output"));
  _ ← st (st_text_area (py "Transcribed Text") (res_text result));
  _ ← st (st_columns 2);
  _ ← st (st_download_button (py "📥 Download as TXT") (to_plain_text result)
            (name uploaded_file ++ py "_transcription.txt") (py "text/plain"));
  let srt_output := to_subtitle_text result in
  _ ← st (st_download_button (py "🎬 Download as SRT") srt_output
            (name uploaded_file ++ py "_subtitles.srt") (py "text/plain"));
  _ ← st (st_expander (py "🔍 View Segments with Timestamps"));
  for_each (res_segments result) (fun seg => st (st_markdown (view_line seg))).

(** Lines 99--117: from the button to the result of Whisper. *)
Definition run_transcription (uploaded_file : UploadedFile) (s : Settings)
    : M (str * Result) :=
  _ ← st spinner_loading;
  model ← load_whisper_model (model_size s);
  tmp_path ← save_temporary_file (path_suffix (name uploaded_file))
               (getvalue uploaded_file);
  _ ← st spinner_transcribing;
  language_code ← languages_getitem (selected_language s);
  result ← model_transcribe model tmp_path language_code
             (task_type (translate_to_english s));
  mret (tmp_path, result).

(** Lines 99--174: the body of the [try]. *)
Definition transcribe_body (uploaded_file : UploadedFile) (s : Settings)
    : M unit :=
  '(tmp_path, result) ← run_transcription uploaded_file s;
  _ ← os_unlink tmp_path;
  display_results uploaded_file result.

(** Lines 176--178: the [except Exception as e] clause. *)
Definition report_error (e : Exn) : M unit :=
  _ ← st (st_error (py "❌ An error occurred during processing: " ++ exn_str e));
  st (st_info
        (py "Try reinstalling dependencies: `pip install openai-whisper streamlit`")).

(** Lines 97--178: what pressing the button runs. *)
Definition transcribe_audio (uploaded_file : UploadedFile) (s : Settings)
    : M unit :=
  try_except (transcribe_body uploaded_file s) report_error.

(** One thing the process does: a call of the cached loader or a press
    of the button. *)
Inductive step : World -> World -> Prop :=
  | step_load size w :
      step w (snd (load_whisper_model size w))
  | step_button uploaded_file s w :
      step w (snd (transcribe_audio uploaded_file s w)).

End Script.

(** The events of [w1] that were not yet in [w]. *)
Definition new_events (w w1 : World) : list Event :=
  drop (length (trace w)) (trace w1).

Definition is_error (ev : Event) : bool :=
  match ev with st_error _ => true | _ => false end.

Definition is_load (ev : Event) : bool :=
  match ev with call_load_model _ => true | _ => false end.

Definition is_tempfile (ev : Event) : bool :=
  match ev with call_NamedTemporaryFile _ => true | _ => false end.

Definition is_write (ev : Event) : bool :=
  match ev with call_write _ _ => true | _ => false end.

Definition is_transcribe (ev : Event) : bool :=
  match ev with call_transcribe _ _ _ _ => true | _ => false end.

Definition is_unlink (ev : Event) : bool :=
  match ev with call_unlink _ => true | _ => false end.

Fixpoint count (p : Event -> bool) (evs : list Event) : nat :=
  match evs with
  | [] => 0
  | ev :: rest => (if p ev then 1 else 0) + count p rest
  end.

Definition is_spinner (ev : Event) : bool :=
  match ev with st_spinner _ => true | _ => false end.

(** The calls into Whisper, [tempfile] and [os]; the rest is drawn. *)
Definition is_call (ev : Event) : bool :=
  is_load ev || is_tempfile ev || is_write ev || is_transcribe ev || is_unlink ev.

#[global] Instance Model_eq_dec : EqDecision Model.
Proof. solve_decision. Defined.

#[global] Instance Event_eq_dec : EqDecision Event.
Proof. solve_decision. Defined.

(** ** Vocabulary of the statements *)

(** [s.split(sep)] for a separator of one code point. *)
Fixpoint split_on (sep : N) (s : str) : list str :=
  match s with
  | [] => [[]]
  | c :: r =>
      if c =? sep then [] :: split_on sep r
      else match split_on sep r with
           | f :: fs => (c :: f) :: fs
           | [] => [[c]]
           end
  end.

(** Lines, each closed by a line feed. *)
Definition unlines (ls : list str) : str :=
  concat (map (fun l => l ++ [LF]) ls).

(** The four lines of the block of the segment at position [k] (from 0). *)
Definition block_lines (k : nat) (seg : Segment) : list str :=
  [ str_int (Z.of_nat (S k));
    srt_time (start seg) ++ py " --> " ++ srt_time (end_ seg);
    strip (text seg);
    [] ].

(** The elements [display_results] draws, in order. *)
Definition display_events (upper : str -> str) (uploaded_file : UploadedFile)
    (result : Result) : list Event :=
  [ st_success (py "✅ Transcription completed successfully!");
    st_info (py "**Detected Language:** "
               ++ upper (default (py "Unknown") (res_language result)));
    st_subheader (py "📝 Transcription Output");
    st_text_area (py "Transcribed Text") (res_text result);
    st_columns 2;
    st_download_button (py "📥 Download as TXT") (res_text result)
      (name uploaded_file ++ py "_transcription.txt") (py "text/plain");
    st_download_button (py "🎬 Download as SRT") (to_subtitle_text result)
      (name uploaded_file ++ py "_subtitles.srt") (py "text/plain");
    st_expander (py "🔍 View Segments with Timestamps") ]
  ++ map (fun seg => st_markdown (view_line seg)) (res_segments result).

(** The world after some more events. *)
Definition add_events (evs : list Event) (w : World) : World :=
  foldl (fun w ev => log ev w) w evs.

(** The two elements of the [except] clause. *)
Definition error_events (e : Exn) : list Event :=
  [ st_error (py "❌ An error occurred during processing: " ++ exn_str e);
    st_info (py "Try reinstalling dependencies: `pip install openai-whisper streamlit`") ].

(** How far the body of the [try] got: the call that raised, or the end. *)
Inductive Progress :=
  | load_raised (e : Exn)
  | create_raised (e : Exn)
  | write_raised (tmp_path : str) (e : Exn)
  | lookup_raised (tmp_path : str) (e : Exn)
  | transcribe_raised (model : Model) (tmp_path : str)
      (language_code : option str) (e : Exn)
  | unlink_raised (model : Model) (tmp_path : str)
      (language_code : option str) (result : Result) (e : Exn)
  | displayed (model : Model) (tmp_path : str)
      (language_code : option str) (result : Result).

Definition outcome_of (g : Progress) : Outcome unit :=
  match g with
  | load_raised e | create_raised e | write_raised _ e | lookup_raised _ e
  | transcribe_raised _ _ _ e | unlink_raised _ _ _ _ e => Raised e
  | displayed _ _ _ _ => Returned tt
  end.

(** What the body did after the model was there. *)
Definition events_after_load (upper : str -> str) (uploaded_file : UploadedFile)
    (s : Settings) (suffix : str) (g : Progress) : list Event :=
  let create := call_NamedTemporaryFile suffix in
  let write p := call_write p (getvalue uploaded_file) in
  let transcribe m p lc :=
    call_transcribe m p lc (task_type (translate_to_english s)) in
  match g with
  | load_raised _ => []
  | create_raised _ => [create]
  | write_raised p _ => [create; write p]
  | lookup_raised p _ => [create; write p; spinner_transcribing]
  | transcribe_raised m p lc _ =>
      [create; write p; spinner_transcribing; transcribe m p lc]
  | unlink_raised m p lc _ _ =>
      [create; write p; spinner_transcribing; transcribe m p lc; call_unlink p]
  | displayed m p lc r =>
      [create; write p; spinner_transcribing; transcribe m p lc; call_unlink p]
        ++ display_events upper uploaded_file r
  end.

(** The scratch files after the body, from those before it. *)
Definition files_after (g : Progress) (fs : gset str) : gset str :=
  match g with
  | load_raised _ | create_raised _ => fs
  | write_raised p _ | lookup_raised p _ | transcribe_raised _ p _ _
  | unlink_raised _ p _ _ _ => {[p]} ∪ fs
  | displayed _ p _ _ => ({[p]} ∪ fs) ∖ {[p]}
  end.

(** What the [except] clause adds. *)
Definition handler_events (g : Progress) : list Event :=
  match outcome_of g with
  | Raised e => error_events e
  | Returned _ => []
  end.

(** What [g] says about the load events [L], about the language looked up
    and about the outcome [rt] of lines 99--117. *)
Definition consistent (g : Progress) (size : str) (L : list Event)
    (lookup : option (option str)) (rt : Outcome (str * Result)) : Prop :=
  match g with
  | load_raised e => L = [call_load_model size] ∧ rt = Raised e
  | create_raised e | write_raised _ e => rt = Raised e
  | lookup_raised _ e => lookup = None ∧ rt = Raised e
  | transcribe_raised _ _ lc e => lookup = Some lc ∧ rt = Raised e
  | unlink_raised _ p lc r _ | displayed _ p lc r =>
      lookup = Some lc ∧ rt = Returned (p, r)
  end.

(** ** A concrete environment, to run the script on *)

Module Demo.

(** Which call fails, if any. *)
Inductive Fault :=
  | NoFault | LoadFails | CreateFails | WriteFails | TranscribeFails | UnlinkFails.

#[global] Instance Fault_eq_dec : EqDecision Fault.
Proof. solve_decision. Defined.

Definition RuntimeError (msg : string) : Exn :=
  {| exn_class := py "RuntimeError"; exn_str := py msg |}.

Definition OSError (msg : string) : Exn :=
  {| exn_class := py "OSError"; exn_str := py msg |}.

(** Whisper knows the sizes of the sidebar; any other name is refused. *)
Definition load_model_error (f : Fault) (size : str) (w : World) : option Exn :=
  if decide (f = LoadFails) then Some (RuntimeError "download failed")
  else if decide (size ∈ model_sizes) then None
  else Some (RuntimeError "Model not found").

Definition tempfile_result (f : Fault) (suffix : str) (w : World) : Exn + str :=
  if decide (f = CreateFails) then inl (OSError "No space left on device")
  else inr (py "/tmp/tmp" ++ str_int (Z.of_nat (length (trace w))) ++ suffix).

Definition write_error (f : Fault) (path : str) (data : list N) (w : World)
    : option Exn :=
  if decide (f = WriteFails) then Some (OSError "No space left on device")
  else None.

Definition segments : list Segment :=
  [ {| start := 0; end_ := 4.5; text := py " Hello there." |};
    {| start := 65; end_ := 70; text := py " hi" |};
    {| start := 3725.25; end_ := 3730; text := py " The end. " |} ].

Definition result : Result :=
  {| res_text := py " Hello there. hi The end. ";
     res_language := Some (py "en");
     res_segments := segments |}.

(** Silence: Whisper finds no segment. *)
Definition silent_result : Result :=
  {| res_text := []; res_language := Some (py "en"); res_segments := [] |}.

Definition transcribe_result (f : Fault) (r : Result) (model : Model)
    (path : str) (language : option str) (task : str) (w : World)
    : Exn + Result :=
  if decide (f = TranscribeFails) then inl (RuntimeError "Failed to load audio")
  else inr r.

Definition unlink_error (f : Fault) (path : str) (w : World) : option Exn :=
  if decide (f = UnlinkFails) then Some (OSError "Permission denied") else None.

(** Stand-ins for the library functions, right on the inputs below. *)
Definition path_suffix (n : str) : str := py ".wav".

Definition upper (s : str) : str :=
  map (fun c => if (97 <=? c) && (c <=? 122) then c - 32 else c) s.

Definition repr (s : str) : str := py "'" ++ s ++ py "'".

Definition world0 : World :=
  {| model_cache := ∅; files := ∅; next_id := 0; trace := [] |}.

Definition upload : UploadedFile :=
  {| name := py "talk.wav"; getvalue := [82; 73; 70; 70] |}.

(** The button, pressed in this environment. *)
Definition press (f : Fault) (r : Result) (s : Settings) (w : World)
    : Outcome unit * World :=
  transcribe_audio (load_model_error f) (tempfile_result f) (write_error f)
    (transcribe_result f r) (unlink_error f) path_suffix upper repr upload s w.

Definition load (f : Fault) (size : str) (w : World) : Outcome Model * World :=
  load_whisper_model (load_model_error f) size w.

(** The body of the [try], and its lines 99--117, in this environment. *)
Definition body (f : Fault) (r : Result) (s : Settings) (w : World)
    : Outcome unit * World :=
  transcribe_body (load_model_error f) (tempfile_result f) (write_error f)
    (transcribe_result f r) (unlink_error f) path_suffix upper repr upload s w.

Definition lines_99_117 (f : Fault) (r : Result) (s : Settings) (w : World)
    : Outcome (str * Result) * World :=
  run_transcription (load_model_error f) (tempfile_result f) (write_error f)
    (transcribe_result f r) path_suffix repr upload s w.

(** Another choice in the sidebar. *)
Definition french_to_english : Settings :=
  {| model_size := py "base"; selected_language := py "French";
     translate_to_english := true |}.

Definition base_model : Model := {| model_id := 0; model_name := py "base" |}.

End Demo.

(** ** The rest of the script *)

Definition DOT : N := 46.

(** Line 95: [f"audio/{uploaded_file.name.split('.')[-1]}"]; [None] stands
    for the [IndexError] of [[-1]] on an empty list. *)
Definition audio_format (name_ : str) : option str :=
  match last (split_on DOT name_) with
  | Some extension => Some (py "audio/" ++ extension)
  | None => None
  end.

(** What holds of the cache at any time: the model under a size was loaded
    for that size, is an object made before now, and no object is under two
    sizes. *)
Definition cache_consistent (w : World) : Prop :=
  (∀ k m, model_cache w !! k = Some m →
          model_name m = k ∧ (model_id m < next_id w)%nat)
  ∧ (∀ k1 k2 m1 m2,
       model_cache w !! k1 = Some m1 → model_cache w !! k2 = Some m2 →
       model_id m1 = model_id m2 → k1 = k2).

(** What is on the page besides what the handler draws: the calls at the
    top level of the script. *)
Inductive Element :=
  | set_page_config (page_title page_icon layout : str)
  | st_title (body : str)
  | st_header (body : str)
  | st_selectbox (label : str) (options : list str) (index : nat) (help : str)
  | st_checkbox (label help : str)
  | st_file_uploader (label : str) (types : list str)
  | st_audio (data : list N) (format : str)
  | st_button (label kind : str)
  | element (ev : Event).

Record Page := {
  sidebar : list Element;
  main : list Element
}.

(** Lines 25--72: [with st.sidebar:]. *)
Definition sidebar_elements : list Element :=
  [ st_header (py "⚙️ Settings");
    st_selectbox (py "Select Whisper Model") model_sizes 2
      (py "Larger models give better accuracy but are slower. 'base' is a good balance.");
    st_selectbox (py "Audio Language") (map fst languages) 0
      (py "Choose the language or use auto-detect");
    st_checkbox (py "Translate to English")
      (py "Translates non-English speech into English text");
    element (st_markdown (py "---"));
    element (st_info (py "🎵 **Supported Audio Formats:** MP3, WAV, M4A, FLAC, OGG, MP4")) ].

(** Lines 13--20 and 86--89. *)
Definition upload_types : list str :=
  [py "mp3"; py "wav"; py "m4a"; py "flac"; py "ogg"; py "webm"; py "mp4"].

Definition top_elements : list Element :=
  [ set_page_config (py "🎧 AI Transcription App") (py "🎤") (py "wide");
    st_title (py "🎤 Multi-Language Audio Transcription App");
    element (st_markdown (py "Upload an audio file and transcribe it using OpenAI Whisper with translation support."));
    st_file_uploader (py "📂 Upload an audio file to transcribe") upload_types ].

(** Lines 183--193. *)
Definition footer_elements : list Element :=
  [ element (st_markdown (py "---"));
    element (st_markdown (py "
### 🧭 How to Use
1. Choose your Whisper model (larger = more accurate but slower)
2. Select or auto-detect the audio language
3. Upload an audio file
4. Click **Transcribe Audio**
5. Download results as TXT or SRT

💡 **Note:** The first model load may take longer due to model download.
")) ].

Section WholeScript.

Variable load_model_error : str -> World -> option Exn.
Variable tempfile_result : str -> World -> Exn + str.
Variable write_error : str -> list N -> World -> option Exn.
Variable transcribe_result :
  Model -> str -> option str -> str -> World -> Exn + Result.
Variable unlink_error : str -> World -> option Exn.
Variable path_suffix : str -> str.
Variable upper : str -> str.
Variable repr : str -> str.

(** One run of the script, from top to bottom: [s] is what the widgets of
    the sidebar return, [uploaded_file] what [st.file_uploader] returns and
    [clicked] what [st.button] returns. *)
Definition script (s : Settings) (uploaded_file : option UploadedFile)
    (clicked : bool) : M Page := fun w =>
  match uploaded_file with
  | None =>
      (Returned {| sidebar := sidebar_elements;
                   main := top_elements ++ footer_elements |}, w)
  | Some up =>
      match audio_format (name up) with
      | None =>
          (Raised {| exn_class := py "IndexError";
                     exn_str := py "list index out of range" |}, w)
      | Some format =>
          let player :=
            [ st_audio (getvalue up) format;
              st_button (py "🎯 Transcribe Audio") (py "primary") ] in
          if clicked then
            match transcribe_audio load_model_error tempfile_result write_error
                    transcribe_result unlink_error path_suffix upper repr
                    up s w with
            | (Returned _, w1) =>
                (Returned {| sidebar := sidebar_elements;
                             main := top_elements ++ player
                                       ++ map element (new_events w w1)
                                       ++ footer_elements |}, w1)
            | (Raised e, w1) => (Raised e, w1)
            end
          else
            (Returned {| sidebar := sidebar_elements;
                         main := top_elements ++ player ++ footer_elements |}, w)
      end
  end.

End WholeScript.

(** Two results to compare: one segment whose text spans several lines,
    and two segments of one line each. *)
Module Multiline.

Definition one_segment : Result :=
  {| res_text := py "a b"; res_language := Some (py "en");
     res_segments :=
       [ {| start := 0; end_ := 0;
            text := py "a" ++ [LF; LF] ++ py "2" ++ [LF]
                      ++ py "00:00:00 --> 00:00:00" ++ [LF] ++ py "b" |} ] |}.

Definition two_segments : Result :=
  {| res_text := py "a b"; res_language := Some (py "en");
     res_segments :=
       [ {| start := 0; end_ := 0; text := py "a" |};
         {| start := 0; end_ := 0; text := py "b" |} ] |}.

End Multiline.

(** [int(s)] on what [str] of an integer writes: an optional sign and
    decimal digits. *)
Definition int_of_str (s : str) : option Z :=
  Z.of_int <$> NilZero.int_of_string (string_of_list_ascii (map ascii_of_N s)).

(** [2^53]: up to here the floats of the timestamps are the rationals of
    the model. *)
Definition exact_below : Q := 9007199254740992.

(** * Properties *)

(** Membership in the events of a run, case by case. *)
Ltac elem_cases H :=
  repeat first
    [ apply elem_of_cons in H as [H|H]
    | apply elem_of_app in H as [H|H]
    | apply elem_of_nil in H; destruct H
    | apply list_elem_of_In, in_map_iff in H as (? & H & _) ];
  try discriminate.

(** ** Strings *)

Definition space (c : N) : Prop := isspace c = true.

Lemma lstrip_spec (s : str) :
  ∃ l, s = l ++ lstrip s ∧ Forall space l
       ∧ ∀ c, head (lstrip s) = Some c → isspace c = false.
Proof.
  induction s as [|c r (l & Hr & Hl & Hh)]; simpl.
  - exists []. split; [done|]. split; [constructor|]. intros c [=].
  - destruct (isspace c) eqn:Hc.
    + exists (c :: l). split; [simpl; congruence|]. split; [|done].
      by constructor.
    + exists []. split; [done|]. split; [constructor|].
      intros c' [= <-]. done.
Qed.

Lemma rstrip_spec (s : str) :
  ∃ r, s = rstrip s ++ r ∧ Forall space r
       ∧ ∀ c, last (rstrip s) = Some c → isspace c = false.
Proof.
  destruct (lstrip_spec (reverse s)) as (l & Hs & Hl & Hh).
  exists (reverse l). unfold rstrip. split; [|split].
  - rewrite <- reverse_app, <- Hs. by rewrite reverse_involutive.
  - by apply Forall_reverse.
  - intros c. rewrite last_reverse. apply Hh.
Qed.

(** [strip] removes a run of whitespace at each end, and nothing else; what
    is left neither starts nor ends with whitespace. *)
Lemma strip_spec (s : str) :
  ∃ l r, s = l ++ strip s ++ r ∧ Forall space l ∧ Forall space r
         ∧ (∀ c, head (strip s) = Some c → isspace c = false)
         ∧ (∀ c, last (strip s) = Some c → isspace c = false).
Proof.
  destruct (lstrip_spec s) as (l & Hs & Hl & Hh).
  destruct (rstrip_spec (lstrip s)) as (r & Hr & Hrs & Hlast).
  exists l, r. unfold strip. repeat split; try done.
  - by rewrite <- Hr.
  - intros c Hc. apply Hh. rewrite Hr.
    destruct (rstrip (lstrip s)); [done|]. exact Hc.
Qed.

Lemma strip_changes (s : str) (c : N) :
  isspace c = true → head s = Some c ∨ last s = Some c → strip s ≠ s.
Proof.
  intros Hc Hends Heq.
  destruct (strip_spec s) as (_ & _ & _ & _ & _ & Hh & Hl).
  rewrite Heq in Hh, Hl.
  destruct Hends as [H|H]; [apply Hh in H|apply Hl in H]; congruence.
Qed.

Definition digit_or_minus (c : N) : Prop := (48 ≤ c ∧ c ≤ 57) ∨ c = 45.

Lemma string_of_uint_chars (d : Decimal.uint) :
  Forall digit_or_minus
    (map N_of_ascii (list_ascii_of_string (NilEmpty.string_of_uint d))).
Proof.
  induction d; simpl; constructor; try done; left; vm_compute; done.
Qed.

Lemma str_int_chars (n : Z) : Forall digit_or_minus (str_int n).
Proof.
  unfold str_int, NilZero.string_of_int.
  destruct (Z.to_int n) as [d|d]; [|simpl; constructor; [by right|]];
    (destruct d; [repeat constructor; vm_compute; done|..];
     apply (string_of_uint_chars (_ _))).
Qed.

Lemma fmt_02_chars (n : Z) : Forall digit_or_minus (fmt_02 n).
Proof.
  assert (Hz : ∀ w s, Forall digit_or_minus s → Forall digit_or_minus (zfill w s)).
  { intros w s Hs. unfold zfill. apply Forall_app. split; [|done].
    apply Forall_forall. intros c Hc%list_elem_of_In%repeat_spec. subst.
    left. lia. }
  unfold fmt_02. destruct (n <? 0)%Z.
  - constructor; [by right|]. apply Hz, str_int_chars.
  - apply Hz, str_int_chars.
Qed.

Lemma split_on_one (sep : N) (a : str) :
  sep ∉ a → split_on sep a = [a].
Proof.
  induction a as [|c a IH]; [done|]. intros Hn. simpl.
  destruct (N.eqb_spec c sep) as [->|_]; [set_solver|].
  rewrite IH; [done|set_solver].
Qed.

Lemma split_on_app (sep : N) (a b : str) :
  sep ∉ a → split_on sep (a ++ sep :: b) = a :: split_on sep b.
Proof.
  induction a as [|c a IH]; intros Hn; simpl.
  - by rewrite N.eqb_refl.
  - destruct (N.eqb_spec c sep) as [->|_]; [set_solver|].
    rewrite IH; [done|set_solver].
Qed.

Lemma digit_or_minus_not (sep : N) (s : str) :
  ¬ digit_or_minus sep → Forall digit_or_minus s → sep ∉ s.
Proof.
  intros Hsep Hs Hin. apply Hsep. by eapply Forall_forall in Hs.
Qed.

(** ** The subtitle text *)

(** The three fields of a rendered time: minutes, seconds, and ["00"]. *)
Lemma srt_time_fields (t : Q) :
  split_on COLON (srt_time t)
  = [fmt_02 (floordiv t 60); fmt_02 (int (pymod t 60)); py "00"].
Proof.
  assert (Hc : ¬ digit_or_minus COLON) by (unfold digit_or_minus, COLON; lia).
  unfold srt_time. change (py ":") with [COLON].
  change (py ":00") with (COLON :: py "00").
  cbn [app].
  rewrite split_on_app by (apply digit_or_minus_not, fmt_02_chars; done).
  rewrite split_on_app by (apply digit_or_minus_not, fmt_02_chars; done).
  reflexivity.
Qed.

Lemma srt_loop_blocks (segs : list Segment) (i : Z) (acc : str) :
  srt_loop i segs acc
  = acc ++ concat (imap (fun k seg => srt_entry (i + Z.of_nat k) seg) segs).
Proof.
  revert i acc. induction segs as [|seg rest IH]; intros i acc; simpl.
  - by rewrite app_nil_r.
  - rewrite IH, <- app_assoc, Z.add_0_r. do 3 f_equal.
    apply imap_ext. intros k x _. simpl. f_equal. lia.
Qed.

Lemma srt_entry_lines (k : nat) (seg : Segment) :
  srt_entry (Z.of_nat (S k)) seg = unlines (block_lines k seg).
Proof.
  unfold srt_entry, unlines, block_lines.
  cbn [map concat]. rewrite app_nil_r, <- !app_assoc. reflexivity.
Qed.

(** C1.  A time is rendered as three fields: the first is the minutes,
    [floor(t/60)] with no wrap at 60, the second the whole seconds left
    over, and the third, not the first, is the constant ["00"].  For the
    segment from 65 to 70 with text "hi" the start is rendered ["01:05:00"],
    which is not ["00:01:05"]: the first field is ["01"]. *)
Theorem srt_time_minutes_come_first :
  (∀ t : Q,
     split_on COLON (srt_time t)
     = [fmt_02 (floordiv t 60); fmt_02 (int (pymod t 60)); py "00"])
  ∧ srt_time 65 = py "01:05:00"
  ∧ split_on COLON (srt_time 65) = [py "01"; py "05"; py "00"]
  ∧ srt_time 65 ≠ py "00:01:05"
  ∧ srt_time 3725.9 = py "62:05:00"
  ∧ to_subtitle_text
      {| res_text := py "hi"; res_language := Some (py "en");
         res_segments := [ {| start := 65; end_ := 70; text := py "hi" |} ] |}
    = py "1" ++ [LF] ++ py "01:05:00 --> 01:10:00" ++ [LF] ++ py "hi" ++ [LF; LF].
Proof.
  split; [exact srt_time_fields|].
  repeat split; try (vm_compute; reflexivity).
  vm_compute. discriminate.
Qed.

(** The loop adds the blocks in order, numbered from 1. *)
Lemma subtitle_text_concat (result : Result) :
  to_subtitle_text result
  = concat (imap (fun k seg => unlines (block_lines k seg)) (res_segments result)).
Proof.
  unfold to_subtitle_text. rewrite srt_loop_blocks. simpl. f_equal.
  apply imap_ext. intros k seg _. simpl.
  rewrite <- srt_entry_lines. f_equal. lia.
Qed.

Lemma split_on_unlines (ls : list str) :
  Forall (fun l => LF ∉ l) ls → split_on LF (unlines ls) = ls ++ [[]].
Proof.
  induction 1 as [|l ls Hl _ IH]; [done|].
  unfold unlines in *. cbn [map concat]. rewrite <- app_assoc. cbn [app].
  by rewrite split_on_app, IH.
Qed.

Lemma concat_imap_unlines (f : nat → Segment → list str) (segs : list Segment) :
  concat (imap (fun k seg => unlines (f k seg)) segs)
  = unlines (concat (imap f segs)).
Proof.
  revert f. induction segs as [|seg segs IH]; intros f; [done|].
  rewrite !imap_cons. cbn [concat].
  transitivity (unlines (f 0%nat seg) ++ unlines (concat (imap (f ∘ S) segs))).
  - by rewrite <- (IH (f ∘ S)).
  - unfold unlines. by rewrite map_app, concat_app.
Qed.

Lemma srt_time_no_LF (t : Q) : LF ∉ srt_time t.
Proof.
  assert (Hd : ∀ n, LF ∉ fmt_02 n).
  { intros n. apply digit_or_minus_not; [|apply fmt_02_chars].
    unfold digit_or_minus, LF. lia. }
  unfold srt_time. rewrite !elem_of_app. intros [H|[H|[H|H]]].
  - by apply Hd in H.
  - vm_compute in H. elem_cases H.
  - by apply Hd in H.
  - vm_compute in H. elem_cases H.
Qed.

Lemma block_lines_no_LF (k : nat) (seg : Segment) :
  LF ∉ strip (text seg) → Forall (fun l => LF ∉ l) (block_lines k seg).
Proof.
  intros Hs. unfold block_lines. repeat constructor; try done.
  - apply digit_or_minus_not; [|apply str_int_chars].
    unfold digit_or_minus, LF. lia.
  - rewrite !elem_of_app. intros [H|[H|H]].
    + by apply srt_time_no_LF in H.
    + vm_compute in H. elem_cases H.
    + by apply srt_time_no_LF in H.
  - apply not_elem_of_nil.
Qed.

Lemma blocks_no_LF (n : nat) (segs : list Segment) :
  Forall (fun seg => LF ∉ strip (text seg)) segs →
  Forall (fun l => LF ∉ l) (concat (imap (fun k => block_lines (n + k)) segs)).
Proof.
  revert n. induction segs as [|seg segs IH]; intros n Hs.
  - constructor.
  - rewrite imap_cons. cbn [concat]. apply Forall_app.
    inversion Hs; subst. split; [by apply block_lines_no_LF|].
    specialize (IH (S n)).
    erewrite imap_ext; [apply IH; assumption|].
    intros k x _. simpl. f_equal. lia.
Qed.

(** X4.  Read line by line: when no stripped text has a line feed inside, the
    lines of the subtitle text are the four lines of each block in turn. *)
Lemma subtitle_lines (result : Result) :
  Forall (fun seg => LF ∉ strip (text seg)) (res_segments result) →
  split_on LF (to_subtitle_text result)
  = concat (imap block_lines (res_segments result)) ++ [[]].
Proof.
  intros Htext. rewrite subtitle_text_concat, concat_imap_unlines.
  apply split_on_unlines. exact (blocks_no_LF 0 _ Htext).
Qed.

Example subtitle_lines_of_one_segment :
  split_on LF
    (to_subtitle_text
       {| res_text := py " hi"; res_language := Some (py "en");
          res_segments := [ {| start := 65; end_ := 70; text := py " hi" |} ] |})
  = [py "1"; py "01:05:00 --> 01:10:00"; py "hi"; []; []].
Proof. vm_compute. reflexivity. Qed.

(** ** Running the script *)

Section Run.

Variable load_model_error : str -> World -> option Exn.
Variable tempfile_result : str -> World -> Exn + str.
Variable write_error : str -> list N -> World -> option Exn.
Variable transcribe_result :
  Model -> str -> option str -> str -> World -> Exn + Result.
Variable unlink_error : str -> World -> option Exn.
Variable path_suffix : str -> str.
Variable upper : str -> str.
Variable repr : str -> str.

Abbreviation load := (load_whisper_model load_model_error).
Abbreviation save := (save_temporary_file tempfile_result write_error).
Abbreviation lines_99_117 :=
  (run_transcription load_model_error tempfile_result write_error
     transcribe_result path_suffix repr).
Abbreviation body :=
  (transcribe_body load_model_error tempfile_result write_error
     transcribe_result unlink_error path_suffix upper repr).
Abbreviation press :=
  (transcribe_audio load_model_error tempfile_result write_error
     transcribe_result unlink_error path_suffix upper repr).
Abbreviation does :=
  (step load_model_error tempfile_result write_error
     transcribe_result unlink_error path_suffix upper repr).

Lemma add_events_app (evs1 evs2 : list Event) (w : World) :
  add_events (evs1 ++ evs2) w = add_events evs2 (add_events evs1 w).
Proof. apply foldl_app. Qed.

Lemma add_events_frame (evs : list Event) (w : World) :
  model_cache (add_events evs w) = model_cache w
  ∧ files (add_events evs w) = files w
  ∧ next_id (add_events evs w) = next_id w
  ∧ trace (add_events evs w) = trace w ++ evs.
Proof.
  revert w. induction evs as [|ev evs IH]; intros w.
  - by rewrite app_nil_r.
  - change (add_events (ev :: evs) w) with (add_events evs (log ev w)).
    destruct (IH (log ev w)) as (-> & -> & -> & ->).
    simpl. by rewrite <- app_assoc.
Qed.

Lemma for_each_st {A} (f : A → Event) (xs : list A) (w : World) :
  for_each xs (fun x => st (f x)) w = (Returned tt, add_events (map f xs) w).
Proof.
  revert w. induction xs as [|x xs IH]; intros w; [done|].
  simpl. unfold mbind, M_bind, st at 1. by rewrite IH.
Qed.

(** [display_results] cannot raise, and draws [display_events]. *)
Lemma display_results_run (up : UploadedFile) (r : Result) (w : World) :
  display_results upper up r w
  = (Returned tt, add_events (display_events upper up r) w).
Proof.
  change (for_each (res_segments r) (fun seg => st (st_markdown (view_line seg)))
            (add_events (take 8 (display_events upper up r)) w)
          = (Returned tt, add_events (display_events upper up r) w)).
  by rewrite for_each_st.
Qed.

Lemma new_events_app (w w1 : World) (evs : list Event) :
  trace w1 = trace w ++ evs → new_events w w1 = evs.
Proof. intros H. unfold new_events. rewrite H. apply drop_app_length. Qed.

(** The cached loader: what one call does to the world. *)
Lemma load_spec (size : str) (w : World) (o : Outcome Model) (w1 : World) :
  load size w = (o, w1) →
  files w1 = files w
  ∧ (∀ k m, model_cache w !! k = Some m → model_cache w1 !! k = Some m)
  ∧ ∃ L, trace w1 = trace w ++ L
      ∧ match o with
        | Returned m =>
            model_cache w1 !! size = Some m
            ∧ (L = [] ∧ w1 = w
               ∨ L = [call_load_model size] ∧ model_cache w !! size = None)
        | Raised e =>
            L = [call_load_model size] ∧ model_cache w1 = model_cache w
            ∧ model_cache w !! size = None ∧ load_model_error size w = Some e
        end.
Proof.
  unfold load_whisper_model, cache_resource, whisper_load_model.
  destruct (model_cache w !! size) as [m|] eqn:Hc.
  - intros [= <- <-]. repeat split; [done|]. exists []. rewrite app_nil_r. auto.
  - destruct (load_model_error size w) as [e|]; intros [= <- <-];
      cbn [files model_cache trace log].
    + repeat split; [done|]. by exists [call_load_model size].
    + split; [done|]. split.
      * intros k m Hk. rewrite lookup_insert_ne; [done|]. congruence.
      * exists [call_load_model size]. rewrite lookup_insert_eq. auto.
Qed.

Lemma save_spec (sfx : str) (data : list N) (w : World) (o : Outcome str)
    (w1 : World) :
  save sfx data w = (o, w1) →
  model_cache w1 = model_cache w
  ∧ match o with
    | Returned p =>
        trace w1 = trace w ++ [call_NamedTemporaryFile sfx; call_write p data]
        ∧ files w1 = {[p]} ∪ files w
    | Raised e =>
        (trace w1 = trace w ++ [call_NamedTemporaryFile sfx] ∧ files w1 = files w)
        ∨ ∃ p, trace w1 = trace w ++ [call_NamedTemporaryFile sfx; call_write p data]
               ∧ files w1 = {[p]} ∪ files w
    end.
Proof.
  unfold save_temporary_file.
  destruct (tempfile_result sfx w) as [e|p].
  - intros [= <- <-]. cbn [files model_cache trace log]. auto.
  - destruct (write_error p data w) as [e|]; intros [= <- <-];
      cbn [files model_cache trace log]; rewrite <- app_assoc; eauto.
Qed.

Local Opaque add_events py.

(** The body of the [try], whatever the environment answers: how far it
    got, what it did and what it left. *)
Lemma transcribe_body_progress (up : UploadedFile) (s : Settings) (w : World)
    (o : Outcome unit) (w1 : World) :
  body up s w = (o, w1) →
  ∃ L g,
    o = outcome_of g
    ∧ trace w1 = trace w ++ spinner_loading :: L
                   ++ events_after_load upper up s (path_suffix (name up)) g
    ∧ files w1 = files_after g (files w)
    ∧ (∀ k m, model_cache w !! k = Some m → model_cache w1 !! k = Some m)
    ∧ (L = [] ∨ L = [call_load_model (model_size s)])
    ∧ consistent g (model_size s) L (getitem languages (selected_language s))
        (fst (lines_99_117 up s w)).
Proof.
  unfold transcribe_body, run_transcription, mbind, M_bind. cbn [st].
  destruct (load (model_size s) (log spinner_loading w)) as [[m|e] wl] eqn:Hload;
    apply load_spec in Hload as (Hfl & Hcl & L & Htl & Hl);
    cbn [trace log] in Htl.
  2:{ intros [= <- <-]. destruct Hl as (-> & _).
      exists [call_load_model (model_size s)], (load_raised e).
      cbn [outcome_of events_after_load files_after consistent].
      rewrite Htl, <- app_assoc. repeat split; auto. }
  assert (HL : L = [] ∨ L = [call_load_model (model_size s)])
    by (destruct Hl as [_ [[-> _]|[-> _]]]; auto).
  clear Hl.
  destruct (save _ _ wl) as [[p|e] ws] eqn:Hsave;
    apply save_spec in Hsave as (Hcs & Hs).
  2:{ intros [= <- <-].
      destruct Hs as [[Hts Hfs]|(p & Hts & Hfs)];
        [exists L, (create_raised e)|exists L, (write_raised p e)];
        cbn [outcome_of events_after_load files_after consistent];
        rewrite Hts, Htl, Hfs, Hfl, <- !app_assoc; repeat split; auto;
        intros ??; rewrite Hcs; auto. }
  destruct Hs as [Hts Hfs].
  unfold languages_getitem.
  destruct (getitem languages (selected_language s)) as [lc|] eqn:Hlang;
    cbn [raise mret M_ret].
  2:{ intros [= <- <-].
      exists L, (lookup_raised p
                   {| exn_class := py "KeyError";
                      exn_str := repr (selected_language s) |}).
      cbn [outcome_of events_after_load files_after consistent
           trace files model_cache log].
      rewrite Hts, Htl, Hfs, Hfl, Hcs, <- !app_assoc. repeat split; auto. }
  unfold model_transcribe.
  destruct (transcribe_result _ _ _ _ _) as [e|r].
  { intros [= <- <-]. exists L, (transcribe_raised m p lc e).
    cbn [outcome_of events_after_load files_after consistent
         trace files model_cache log].
    rewrite Hts, Htl, Hfs, Hfl, Hcs, <- !app_assoc. repeat split; auto. }
  unfold mret, M_ret, os_unlink. cbv beta iota.
  match goal with |- context [unlink_error ?a ?b] =>
    destruct (unlink_error a b) as [e|] end.
  { intros [= <- <-]. exists L, (unlink_raised m p lc r e).
    cbn [outcome_of events_after_load files_after consistent
         trace files model_cache log].
    rewrite Hts, Htl, Hfs, Hfl, Hcs, <- !app_assoc. repeat split; eauto. }
  rewrite display_results_run. intros [= <- <-]. exists L, (displayed m p lc r).
  match goal with |- context [add_events ?evs ?w0] =>
    destruct (add_events_frame evs w0) as (Hc & Hf & _ & Ht) end.
  rewrite Hc, Hf, Ht.
  cbn [outcome_of events_after_load files_after consistent
       trace files model_cache log].
  rewrite Hts, Htl, Hfs, Hfl, Hcs, <- !app_assoc. repeat split; eauto.
Qed.

(** The button: the body, then the [except] clause if the body raised. *)
Lemma transcribe_audio_progress (up : UploadedFile) (s : Settings) (w : World) :
  ∃ L g w1,
    body up s w = (outcome_of g, w1)
    ∧ press up s w = (Returned tt, add_events (handler_events g) w1)
    ∧ new_events w (snd (press up s w))
      = spinner_loading :: L
          ++ events_after_load upper up s (path_suffix (name up)) g
          ++ handler_events g
    ∧ files (snd (press up s w)) = files_after g (files w)
    ∧ (∀ k m, model_cache w !! k = Some m →
              model_cache (snd (press up s w)) !! k = Some m)
    ∧ (L = [] ∨ L = [call_load_model (model_size s)])
    ∧ consistent g (model_size s) L (getitem languages (selected_language s))
        (fst (lines_99_117 up s w)).
Proof.
  destruct (body up s w) as [o w1] eqn:Hbody.
  destruct (transcribe_body_progress _ _ _ _ _ Hbody)
    as (L & g & -> & Ht & Hf & Hc & HL & Hg).
  exists L, g, w1. split; [done|].
  assert (Hpress : press up s w = (Returned tt, add_events (handler_events g) w1)).
  { unfold transcribe_audio, try_except. rewrite Hbody.
    unfold handler_events. destruct (outcome_of g) as [[]|e]; [done|].
    reflexivity. }
  rewrite Hpress. cbn [snd].
  destruct (add_events_frame (handler_events g) w1) as (-> & -> & _ & Ht').
  repeat split; try done.
  apply new_events_app. rewrite Ht', Ht, <- !app_assoc. simpl.
  by rewrite <- app_assoc.
Qed.

Lemma count_app (p : Event → bool) (evs1 evs2 : list Event) :
  count p (evs1 ++ evs2) = (count p evs1 + count p evs2)%nat.
Proof. induction evs1 as [|ev evs1 IH]; simpl; [done|]. rewrite IH. lia. Qed.

Lemma count_none (p : Event → bool) (evs : list Event) :
  Forall (fun ev => p ev = false) evs → count p evs = 0%nat.
Proof. induction 1 as [|ev evs Hev _ IH]; simpl; [done|]. by rewrite Hev, IH. Qed.

(** The results drawn are neither calls nor error notices. *)
Lemma display_events_drawn (up : UploadedFile) (r : Result) :
  Forall (fun ev => is_call ev = false ∧ is_error ev = false)
    (display_events upper up r).
Proof.
  unfold display_events. apply Forall_app. split.
  - repeat constructor.
  - apply Forall_forall. intros ev Hev%list_elem_of_In%in_map_iff.
    destruct Hev as (seg & <- & _). by split.
Qed.

Lemma count_display (p : Event → bool) (up : UploadedFile) (r : Result) :
  (∀ ev, is_call ev = false → is_error ev = false → p ev = false) →
  count p (display_events upper up r) = 0%nat.
Proof.
  intros Hp. apply count_none.
  eapply Forall_impl; [apply display_events_drawn|]. intros ev []. by apply Hp.
Qed.


(** C3.  Whenever pressing the button offers the "Download as TXT" button,
    lines 99--117 returned a result, and the data of the button is
    [to_plain_text] of that result: its full text, unchanged. *)
Theorem txt_download_is_full_text (up : UploadedFile) (s : Settings) (w : World)
    (data file_name mime : str) :
  st_download_button (py "📥 Download as TXT") data file_name mime
    ∈ new_events w (snd (press up s w)) →
  ∃ tmp_path result,
    fst (lines_99_117 up s w) = Returned (tmp_path, result)
    ∧ data = to_plain_text result
    ∧ to_plain_text result = res_text result.
Proof.
  destruct (transcribe_audio_progress up s w)
    as (L & g & w1 & _ & _ & -> & _ & _ & HL & Hg).
  intros H.
  apply elem_of_cons in H as [H|H]; [discriminate|].
  apply elem_of_app in H as [H|H].
  { destruct HL as [-> | ->]; elem_cases H. }
  destruct g; cbn [events_after_load handler_events outcome_of error_events] in H;
    try (elem_cases H; fail).
  destruct Hg as [_ Hrt]. exists tmp_path, result. split; [done|].
  split; [|done].
  rewrite app_nil_r in H. unfold display_events in H.
  apply elem_of_app in H as [H|H].
  { elem_cases H. }
  apply elem_of_app in H as [H|H].
  - elem_cases H. by injection H as -> _ _.
  - apply list_elem_of_In, in_map_iff in H as (seg & Hseg & _). discriminate.
Qed.

(** Nothing is tried twice: in one press of the button each call is made
    at most once. *)
Lemma calls_at_most_once (up : UploadedFile) (s : Settings) (w : World) :
  let news := new_events w (snd (press up s w)) in
  (count is_load news ≤ 1 ∧ count is_tempfile news ≤ 1 ∧ count is_write news ≤ 1
   ∧ count is_transcribe news ≤ 1 ∧ count is_unlink news ≤ 1)%nat.
Proof.
  destruct (transcribe_audio_progress up s w)
    as (L & g & w1 & _ & _ & -> & _ & _ & HL & _).
  cbn zeta.
  destruct HL as [-> | ->], g;
    cbn [events_after_load handler_events outcome_of error_events];
    rewrite ?app_nil_r; cbn [app count]; rewrite ?count_app;
    rewrite ?count_display by (by intros []); simpl; lia.
Qed.

(** C6.  Whatever the body of the [try] raises, pressing the button returns
    normally: the [except] clause draws one error notice, the fixed text
    followed by [str(e)], and a fixed hint after it; there is no other error
    notice, and no call was made twice. *)
Theorem errors_end_in_one_notice (up : UploadedFile) (s : Settings) (w : World)
    (e : Exn) (w1 : World) :
  body up s w = (Raised e, w1) →
  let w2 := snd (press up s w) in
  let news := new_events w w2 in
  fst (press up s w) = Returned tt
  ∧ trace w2
    = trace w1
        ++ [ st_error (py "❌ An error occurred during processing: " ++ exn_str e);
             st_info (py "Try reinstalling dependencies: `pip install openai-whisper streamlit`") ]
  ∧ count is_error news = 1%nat
  ∧ (count is_load news ≤ 1 ∧ count is_tempfile news ≤ 1
     ∧ count is_write news ≤ 1 ∧ count is_transcribe news ≤ 1
     ∧ count is_unlink news ≤ 1)%nat.
Proof.
  intros Hbody. cbn zeta. split; [|split; [|split]].
  - by destruct (transcribe_audio_progress up s w) as (L & g & w1' & _ & -> & _).
  - unfold transcribe_audio, try_except. rewrite Hbody.
    change (report_error e w1) with (Returned tt, add_events (error_events e) w1).
    cbn [snd]. by destruct (add_events_frame (error_events e) w1) as (_ & _ & _ & ->).
  - destruct (transcribe_audio_progress up s w)
      as (L & g & w1' & Hb & _ & -> & _ & _ & HL & _).
    rewrite Hbody in Hb. injection Hb as Hg _.
    destruct HL as [-> | ->], g; try discriminate;
      cbn [events_after_load handler_events outcome_of error_events];
      reflexivity.
  - apply calls_at_most_once.
Qed.

(** Each call that can fail is inside the [try]: when it raises, the body
    raises the same exception. *)
Lemma raised_in_body (up : UploadedFile) (s : Settings) (w : World) (e : Exn) :
  fst (lines_99_117 up s w) = Raised e → fst (body up s w) = Raised e.
Proof.
  unfold transcribe_body, mbind at 1, M_bind at 1.
  destruct (lines_99_117 up s w) as [[[p r]|e'] w1]; [discriminate|].
  by intros [= ->].
Qed.

(** C7.  When the results are displayed, the scratch file was unlinked just
    before the first of them, after it was written, and it is not on disk
    at the end.  When lines 99--117 raise (the model load, the writing of
    the scratch file or the transcription), [os.unlink] is not called, and
    a scratch file that was written is still on disk at the end. *)
Theorem scratch_file_cleanup (up : UploadedFile) (s : Settings) (w : World) :
  let w2 := snd (press up s w) in
  let news := new_events w w2 in
  (∀ msg, st_success msg ∈ news →
     ∃ tmp_path pre post,
       news = pre ++ call_unlink tmp_path :: st_success msg :: post
       ∧ call_write tmp_path (getvalue up) ∈ pre
       ∧ Forall (fun ev => is_call ev || is_spinner ev = true) pre
       ∧ tmp_path ∉ files w2)
  ∧ (∀ e, fst (lines_99_117 up s w) = Raised e →
       count is_unlink news = 0%nat
       ∧ (∀ tmp_path data, call_write tmp_path data ∈ news → tmp_path ∈ files w2)
       ∧ files w ⊆ files w2).
Proof.
  cbn zeta.
  destruct (transcribe_audio_progress up s w)
    as (L & g & w1 & _ & _ & -> & -> & _ & HL & Hg).
  split.
  - intros msg H.
    apply elem_of_cons in H as [H|H]; [discriminate|].
    apply elem_of_app in H as [H|H].
    { destruct HL as [-> | ->]; elem_cases H. }
    destruct g; cbn [events_after_load handler_events outcome_of error_events] in *;
      try (elem_cases H; fail).
    rewrite app_nil_r in *. unfold display_events in H.
    apply elem_of_app in H as [H|H]; [elem_cases H|].
    apply elem_of_app in H as [H|H].
    2:{ apply list_elem_of_In, in_map_iff in H as (seg & Hseg & _). discriminate. }
    elem_cases H. injection H as ->.
    exists tmp_path,
      (spinner_loading :: L
         ++ [ call_NamedTemporaryFile (path_suffix (name up));
              call_write tmp_path (getvalue up);
              spinner_transcribing;
              call_transcribe model tmp_path language_code
                (task_type (translate_to_english s)) ]).
    exists (tail (display_events upper up result)). split; [|split; [|split]].
    + unfold display_events. simpl. rewrite <- app_assoc. reflexivity.
    + apply list_elem_of_further, elem_of_app. right.
      apply list_elem_of_further, list_elem_of_here.
    + constructor; [done|]. apply Forall_app. split.
      * destruct HL as [-> | ->]; repeat constructor.
      * repeat constructor.
    + cbn [files_after]. rewrite not_elem_of_difference. right.
      by apply elem_of_singleton_2.
  - intros e He.
    destruct g; cbn [consistent] in Hg; destruct_and?;
      try (rewrite He in *; discriminate);
      cbn [events_after_load handler_events outcome_of error_events files_after].
    all: split; [|split; [|done || apply union_subseteq_r]].
    all: try (destruct HL as [-> | ->]; reflexivity).
    all: intros p d Hin; apply elem_of_cons in Hin as [Hin|Hin]; [discriminate|];
         apply elem_of_app in Hin as [Hin|Hin];
         [destruct HL as [-> | ->]; elem_cases Hin|];
         elem_cases Hin; injection Hin as -> _;
         by apply elem_of_union_l, elem_of_singleton_2.
Qed.

Lemma getitem_elem_of {V} (d : list (str * V)) (key : str) (v : V) :
  getitem d key = Some v → (key, v) ∈ d.
Proof.
  induction d as [|[k v'] d IH]; simpl; [done|].
  case_decide as Hk.
  - intros [= ->]. subst. apply list_elem_of_here.
  - intros H. by apply list_elem_of_further, IH.
Qed.

(** ["Auto-detect"] is the one entry of [languages] without a code. *)
Lemma languages_auto_detect (key : str) :
  getitem languages key = Some None ↔ key = py "Auto-detect".
Proof.
  split.
  - unfold languages. cbn [getitem].
    repeat (case_decide; [try discriminate; by intros _|]). discriminate.
  - intros ->. vm_compute. reflexivity.
Qed.

(** C8.  A call of [model.transcribe] made by the button has for [language]
    the entry of [languages] for the selection, which is [None] exactly for
    "Auto-detect", and has for [task] "translate" when the box is checked and
    "transcribe" when it is not; by default nothing is checked and the
    selection is "Auto-detect". *)
Theorem transcribe_arguments (up : UploadedFile) (s : Settings) (w : World)
    (model : Model) (path : str) (language : option str) (task : str) :
  call_transcribe model path language task ∈ new_events w (snd (press up s w)) →
  getitem languages (selected_language s) = Some language
  ∧ (selected_language s, language) ∈ languages
  ∧ (language = None ↔ selected_language s = py "Auto-detect")
  ∧ task = (if translate_to_english s then py "translate" else py "transcribe")
  ∧ translate_to_english default_settings = false
  ∧ selected_language default_settings = py "Auto-detect".
Proof.
  destruct (transcribe_audio_progress up s w)
    as (L & g & w1 & _ & _ & -> & _ & _ & HL & Hg).
  intros H.
  assert (Hlang : getitem languages (selected_language s) = Some language
                  ∧ task = task_type (translate_to_english s)).
  { apply elem_of_cons in H as [H|H]; [discriminate|].
    apply elem_of_app in H as [H|H].
    { destruct HL as [-> | ->]; elem_cases H. }
    destruct g;
      cbn [events_after_load handler_events outcome_of error_events consistent]
        in *; unfold display_events in *;
      elem_cases H; injection H as -> -> -> ->; by destruct Hg. }
  destruct Hlang as [Hlang ->]. split; [done|].
  split; [by apply getitem_elem_of|].
  split; [|split; [done|split; [done|by vm_compute]]].
  rewrite <- languages_auto_detect, Hlang. split; congruence.
Qed.

(** C9.  With no segment the subtitle text is the empty string;
    [display_results] returns all the same, with no error notice, and offers
    the "Download as SRT" button with that empty string. *)
Theorem no_segments_empty_subtitles (up : UploadedFile) (result : Result)
    (w : World) :
  res_segments result = [] →
  let w1 := snd (display_results upper up result w) in
  to_subtitle_text result = []
  ∧ fst (display_results upper up result w) = Returned tt
  ∧ st_download_button (py "🎬 Download as SRT") []
      (name up ++ py "_subtitles.srt") (py "text/plain") ∈ new_events w w1
  ∧ count is_error (new_events w w1) = 0%nat.
Proof.
  intros Hseg. cbn zeta. rewrite display_results_run. cbn [fst snd].
  assert (Hsrt : to_subtitle_text result = [])
    by (unfold to_subtitle_text; by rewrite Hseg).
  rewrite (new_events_app w _ (display_events upper up result))
    by apply add_events_frame.
  repeat split; [done| |by apply count_display; intros []].
  unfold display_events. rewrite Hsrt.
  apply elem_of_app. left. do 6 apply list_elem_of_further. apply list_elem_of_here.
Qed.

Lemma concat_imap_lookup {A B} (f : nat → A → list B) (l : list A) (k : nat)
    (x : A) :
  l !! k = Some x →
  ∃ before after, concat (imap f l) = before ++ f k x ++ after.
Proof.
  revert f k. induction l as [|y l IH]; intros f k; [done|].
  rewrite imap_cons. destruct k as [|k]; simpl.
  - intros [= ->]. by exists [], (concat (imap (f ∘ S) l)).
  - intros Hk. destruct (IH (f ∘ S) k Hk) as (before & after & ->).
    exists (f 0%nat y ++ before), after. by rewrite <- app_assoc.
Qed.

(** C10.  The block of a segment is in the subtitle text, and its text line
    is the text of the segment without the whitespace at its two ends;
    the segment view draws a line that ends with the text as it is, and the
    TXT button has the full text as it is.  So a text that starts or ends
    with whitespace is not the same in the subtitles and on the page. *)
Theorem subtitle_text_is_stripped (up : UploadedFile) (result : Result)
    (w : World) (k : nat) (seg : Segment) :
  res_segments result !! k = Some seg →
  let drawn := new_events w (snd (display_results upper up result w)) in
  (∃ before after,
     to_subtitle_text result = before ++ unlines (block_lines k seg) ++ after)
  ∧ block_lines k seg !! 2%nat = Some (strip (text seg))
  ∧ (∃ l r, text seg = l ++ strip (text seg) ++ r
            ∧ Forall space l ∧ Forall space r
            ∧ (∀ c, head (strip (text seg)) = Some c → isspace c = false)
            ∧ (∀ c, last (strip (text seg)) = Some c → isspace c = false))
  ∧ (∃ stamp, st_markdown (stamp ++ text seg) ∈ drawn)
  ∧ st_download_button (py "📥 Download as TXT") (res_text result)
      (name up ++ py "_transcription.txt") (py "text/plain") ∈ drawn
  ∧ (∀ c, isspace c = true →
          head (text seg) = Some c ∨ last (text seg) = Some c →
          strip (text seg) ≠ text seg).
Proof.
  intros Hk. cbn zeta. rewrite display_results_run. cbn [snd].
  rewrite (new_events_app w _ (display_events upper up result))
    by apply add_events_frame.
  split; [|split; [done|split; [apply strip_spec|split; [|split]]]].
  - rewrite subtitle_text_concat.
    by apply (concat_imap_lookup (fun k seg => unlines (block_lines k seg))).
  - exists (py "**[" ++ view_time (start seg) ++ py " - "
              ++ view_time (end_ seg) ++ py "]** ").
    unfold display_events. apply elem_of_app. right.
    apply list_elem_of_In, in_map_iff. exists seg. split.
    + unfold view_line. by rewrite <- !app_assoc.
    + by apply list_elem_of_In, list_elem_of_lookup_2 with k.
  - unfold display_events. apply elem_of_app. left.
    do 5 apply list_elem_of_further. apply list_elem_of_here.
  - intros c. apply strip_changes.
Qed.

(** The cache only grows: nothing the process does removes or replaces an
    entry. *)
Lemma step_keeps_cache (w w' : World) (k : str) (m : Model) :
  does w w' → model_cache w !! k = Some m → model_cache w' !! k = Some m.
Proof.
  intros [size w0|up s w0] Hk.
  - destruct (load size w0) as [o w1] eqn:Hload.
    by apply load_spec in Hload as (_ & Hc & _); apply Hc.
  - destruct (transcribe_audio_progress up s w0)
      as (_ & _ & _ & _ & _ & _ & _ & Hc & _). by apply Hc.
Qed.

Lemma steps_keep_cache (w w' : World) (k : str) (m : Model) :
  rtc does w w' → model_cache w !! k = Some m → model_cache w' !! k = Some m.
Proof. induction 1; eauto using step_keeps_cache. Qed.

Lemma load_cached (size : str) (w : World) (m : Model) :
  model_cache w !! size = Some m → load size w = (Returned m, w).
Proof.
  intros Hc. unfold load_whisper_model, cache_resource. by rewrite Hc.
Qed.

(** C4.  The first call for a size, one that finds no entry and gets a
    model, called [whisper.load_model] once and stored the model under the
    size; after that, whatever the process does in between, a call for
    the same size returns that very model and changes nothing: no load, no
    event. *)
Theorem loaded_model_is_reused (size : str) (w : World) (m : Model) (w1 : World) :
  model_cache w !! size = None →
  load size w = (Returned m, w1) →
  new_events w w1 = [call_load_model size]
  ∧ model_cache w1 !! size = Some m
  ∧ ∀ w2, rtc does w1 w2 → load size w2 = (Returned m, w2).
Proof.
  intros Hnone Hload.
  apply load_spec in Hload as (_ & _ & L & Ht & Hm & HL).
  split; [|split; [done|]].
  - apply new_events_app. rewrite Ht.
    destruct HL as [[_ ->]|[-> _]]; [congruence|done].
  - intros w2 Hsteps. eapply load_cached, steps_keep_cache; eauto.
Qed.

(** C5.  When there is no entry for the size and [whisper.load_model]
    raises, the cached loader raises that exception; the cache is what it
    was, with no entry for the size, and the next call for the size calls
    [whisper.load_model] again. *)
Theorem failed_load_leaves_no_entry (size : str) (w : World) (e : Exn) :
  model_cache w !! size = None →
  load_model_error size w = Some e →
  let w1 := snd (load size w) in
  fst (load size w) = Raised e
  ∧ model_cache w1 = model_cache w
  ∧ model_cache w1 !! size = None
  ∧ new_events w w1 = [call_load_model size]
  ∧ ∀ o w2, load size w1 = (o, w2) → new_events w1 w2 = [call_load_model size].
Proof.
  intros Hnone Herr. cbn zeta.
  assert (Hload : load size w = (Raised e, log (call_load_model size) w)).
  { unfold load_whisper_model, cache_resource, whisper_load_model.
    by rewrite Hnone, Herr. }
  rewrite Hload. cbn [fst snd model_cache log].
  repeat split; try done.
  - by apply new_events_app.
  - intros o w2 Hretry.
    apply load_spec in Hretry as (_ & _ & L & Ht & HL).
    apply new_events_app. rewrite Ht. f_equal.
    destruct o as [m|e'].
    + destruct HL as [Hm [[_ ->]|[-> _]]]; [|done].
      cbn [model_cache log] in Hm. congruence.
    + by destruct HL as [-> _].
Qed.

End Run.

(** ** The theorems at work on the concrete environment *)

Ltac by_decision := apply (bool_decide_unpack _); vm_compute; exact I.

Lemma txt_download_is_full_text_witness :
  st_download_button (py "📥 Download as TXT") (py " Hello there. hi The end. ")
    (py "talk.wav_transcription.txt") (py "text/plain")
    ∈ new_events Demo.world0
        (snd (Demo.press Demo.NoFault Demo.result default_settings Demo.world0))
  ∧ ∃ tmp_path result,
      fst (Demo.lines_99_117 Demo.NoFault Demo.result default_settings Demo.world0)
      = Returned (tmp_path, result)
      ∧ py " Hello there. hi The end. " = to_plain_text result
      ∧ to_plain_text result = res_text result.
Proof.
  assert (H : st_download_button (py "📥 Download as TXT")
                (py " Hello there. hi The end. ")
                (py "talk.wav_transcription.txt") (py "text/plain")
              ∈ new_events Demo.world0
                  (snd (Demo.press Demo.NoFault Demo.result default_settings
                          Demo.world0)))
    by by_decision.
  split; [exact H|].
  exact (txt_download_is_full_text
           (Demo.load_model_error Demo.NoFault) (Demo.tempfile_result Demo.NoFault)
           (Demo.write_error Demo.NoFault)
           (Demo.transcribe_result Demo.NoFault Demo.result)
           (Demo.unlink_error Demo.NoFault) Demo.path_suffix Demo.upper Demo.repr
           Demo.upload default_settings Demo.world0 _ _ _ H).
Defined.

Lemma loaded_model_is_reused_witness :
  let w1 := snd (Demo.load Demo.NoFault (py "base") Demo.world0) in
  model_cache Demo.world0 !! py "base" = None
  ∧ Demo.load Demo.NoFault (py "base") Demo.world0 = (Returned Demo.base_model, w1)
  ∧ new_events Demo.world0 w1 = [call_load_model (py "base")]
  ∧ model_cache w1 !! py "base" = Some Demo.base_model
  ∧ Demo.load Demo.NoFault (py "base") w1 = (Returned Demo.base_model, w1).
Proof.
  cbn zeta.
  assert (H1 : model_cache Demo.world0 !! py "base" = None)
    by (vm_compute; reflexivity).
  assert (H2 : Demo.load Demo.NoFault (py "base") Demo.world0
               = (Returned Demo.base_model,
                  snd (Demo.load Demo.NoFault (py "base") Demo.world0)))
    by (vm_compute; reflexivity).
  destruct (loaded_model_is_reused
              (Demo.load_model_error Demo.NoFault)
              (Demo.tempfile_result Demo.NoFault) (Demo.write_error Demo.NoFault)
              (Demo.transcribe_result Demo.NoFault Demo.result)
              (Demo.unlink_error Demo.NoFault) Demo.path_suffix Demo.upper Demo.repr
              (py "base") Demo.world0 Demo.base_model _ H1 H2)
    as (Hnew & Hstored & Hlater).
  split; [exact H1|]. split; [exact H2|]. split; [exact Hnew|].
  split; [exact Hstored|]. apply Hlater, rtc_refl.
Defined.

Lemma failed_load_leaves_no_entry_witness :
  let w1 := snd (Demo.load Demo.NoFault (py "huge") Demo.world0) in
  model_cache Demo.world0 !! py "huge" = None
  ∧ Demo.load_model_error Demo.NoFault (py "huge") Demo.world0
    = Some (Demo.RuntimeError "Model not found")
  ∧ fst (Demo.load Demo.NoFault (py "huge") Demo.world0)
    = Raised (Demo.RuntimeError "Model not found")
  ∧ model_cache w1 = model_cache Demo.world0
  ∧ model_cache w1 !! py "huge" = None
  ∧ new_events Demo.world0 w1 = [call_load_model (py "huge")]
  ∧ ∀ o w2, Demo.load Demo.NoFault (py "huge") w1 = (o, w2) →
            new_events w1 w2 = [call_load_model (py "huge")].
Proof.
  cbn zeta.
  assert (H1 : model_cache Demo.world0 !! py "huge" = None)
    by (vm_compute; reflexivity).
  assert (H2 : Demo.load_model_error Demo.NoFault (py "huge") Demo.world0
               = Some (Demo.RuntimeError "Model not found"))
    by (vm_compute; reflexivity).
  split; [exact H1|]. split; [exact H2|].
  exact (failed_load_leaves_no_entry (Demo.load_model_error Demo.NoFault)
           (py "huge") Demo.world0 _ H1 H2).
Defined.

Lemma errors_end_in_one_notice_witness :
  let e := Demo.RuntimeError "Failed to load audio" in
  let w := Demo.world0 in
  let w1 := snd (Demo.body Demo.TranscribeFails Demo.result default_settings w) in
  let w2 := snd (Demo.press Demo.TranscribeFails Demo.result default_settings w) in
  Demo.body Demo.TranscribeFails Demo.result default_settings w = (Raised e, w1)
  ∧ fst (Demo.press Demo.TranscribeFails Demo.result default_settings w)
    = Returned tt
  ∧ trace w2
    = trace w1
        ++ [ st_error (py "❌ An error occurred during processing: " ++ exn_str e);
             st_info (py "Try reinstalling dependencies: `pip install openai-whisper streamlit`") ]
  ∧ count is_error (new_events w w2) = 1%nat
  ∧ (count is_load (new_events w w2) ≤ 1
     ∧ count is_tempfile (new_events w w2) ≤ 1
     ∧ count is_write (new_events w w2) ≤ 1
     ∧ count is_transcribe (new_events w w2) ≤ 1
     ∧ count is_unlink (new_events w w2) ≤ 1)%nat.
Proof.
  cbn zeta.
  assert (H : Demo.body Demo.TranscribeFails Demo.result default_settings
                Demo.world0
              = (Raised (Demo.RuntimeError "Failed to load audio"),
                 snd (Demo.body Demo.TranscribeFails Demo.result default_settings
                        Demo.world0)))
    by (vm_compute; reflexivity).
  split; [exact H|].
  exact (errors_end_in_one_notice
           (Demo.load_model_error Demo.TranscribeFails)
           (Demo.tempfile_result Demo.TranscribeFails)
           (Demo.write_error Demo.TranscribeFails)
           (Demo.transcribe_result Demo.TranscribeFails Demo.result)
           (Demo.unlink_error Demo.TranscribeFails)
           Demo.path_suffix Demo.upper Demo.repr
           Demo.upload default_settings Demo.world0 _ _ H).
Defined.

Lemma scratch_file_cleanup_witness :
  let w := Demo.world0 in
  let done := snd (Demo.press Demo.NoFault Demo.result default_settings w) in
  let failed :=
    snd (Demo.press Demo.TranscribeFails Demo.result default_settings w) in
  (st_success (py "✅ Transcription completed successfully!") ∈ new_events w done
   ∧ ∃ tmp_path pre post,
       new_events w done
       = pre ++ call_unlink tmp_path
             :: st_success (py "✅ Transcription completed successfully!") :: post
       ∧ call_write tmp_path (getvalue Demo.upload) ∈ pre
       ∧ Forall (fun ev => is_call ev || is_spinner ev = true) pre
       ∧ tmp_path ∉ files done)
  ∧ (fst (Demo.lines_99_117 Demo.TranscribeFails Demo.result default_settings w)
     = Raised (Demo.RuntimeError "Failed to load audio")
     ∧ count is_unlink (new_events w failed) = 0%nat
     ∧ (∀ tmp_path data,
          call_write tmp_path data ∈ new_events w failed → tmp_path ∈ files failed)
     ∧ files w ⊆ files failed).
Proof.
  cbn zeta. split.
  - assert (H : st_success (py "✅ Transcription completed successfully!")
                ∈ new_events Demo.world0
                    (snd (Demo.press Demo.NoFault Demo.result default_settings
                            Demo.world0)))
      by by_decision.
    split; [exact H|].
    exact (proj1 (scratch_file_cleanup
                    (Demo.load_model_error Demo.NoFault)
                    (Demo.tempfile_result Demo.NoFault)
                    (Demo.write_error Demo.NoFault)
                    (Demo.transcribe_result Demo.NoFault Demo.result)
                    (Demo.unlink_error Demo.NoFault)
                    Demo.path_suffix Demo.upper Demo.repr
                    Demo.upload default_settings Demo.world0) _ H).
  - assert (H : fst (Demo.lines_99_117 Demo.TranscribeFails Demo.result
                       default_settings Demo.world0)
                = Raised (Demo.RuntimeError "Failed to load audio"))
      by (vm_compute; reflexivity).
    split; [exact H|].
    exact (proj2 (scratch_file_cleanup
                    (Demo.load_model_error Demo.TranscribeFails)
                    (Demo.tempfile_result Demo.TranscribeFails)
                    (Demo.write_error Demo.TranscribeFails)
                    (Demo.transcribe_result Demo.TranscribeFails Demo.result)
                    (Demo.unlink_error Demo.TranscribeFails)
                    Demo.path_suffix Demo.upper Demo.repr
                    Demo.upload default_settings Demo.world0) _ H).
Defined.

Lemma transcribe_arguments_witness :
  let s := Demo.french_to_english in
  call_transcribe Demo.base_model (py "/tmp/tmp2.wav") (Some (py "fr"))
    (py "translate")
    ∈ new_events Demo.world0
        (snd (Demo.press Demo.NoFault Demo.result s Demo.world0))
  ∧ getitem languages (selected_language s) = Some (Some (py "fr"))
  ∧ (selected_language s, Some (py "fr")) ∈ languages
  ∧ (Some (py "fr") = None ↔ selected_language s = py "Auto-detect")
  ∧ py "translate"
    = (if translate_to_english s then py "translate" else py "transcribe")
  ∧ translate_to_english default_settings = false
  ∧ selected_language default_settings = py "Auto-detect".
Proof.
  cbn zeta.
  assert (H : call_transcribe Demo.base_model (py "/tmp/tmp2.wav")
                (Some (py "fr")) (py "translate")
              ∈ new_events Demo.world0
                  (snd (Demo.press Demo.NoFault Demo.result
                          Demo.french_to_english Demo.world0)))
    by by_decision.
  split; [exact H|].
  exact (transcribe_arguments
           (Demo.load_model_error Demo.NoFault) (Demo.tempfile_result Demo.NoFault)
           (Demo.write_error Demo.NoFault)
           (Demo.transcribe_result Demo.NoFault Demo.result)
           (Demo.unlink_error Demo.NoFault) Demo.path_suffix Demo.upper Demo.repr
           Demo.upload Demo.french_to_english Demo.world0 _ _ _ _ H).
Defined.

Lemma no_segments_empty_subtitles_witness :
  let w := Demo.world0 in
  let w1 := snd (display_results Demo.upper Demo.upload Demo.silent_result w) in
  res_segments Demo.silent_result = []
  ∧ to_subtitle_text Demo.silent_result = []
  ∧ fst (display_results Demo.upper Demo.upload Demo.silent_result w) = Returned tt
  ∧ st_download_button (py "🎬 Download as SRT") []
      (name Demo.upload ++ py "_subtitles.srt") (py "text/plain") ∈ new_events w w1
  ∧ count is_error (new_events w w1) = 0%nat.
Proof.
  cbn zeta.
  assert (H : res_segments Demo.silent_result = []) by reflexivity.
  split; [exact H|].
  exact (no_segments_empty_subtitles Demo.upper Demo.upload Demo.silent_result
           Demo.world0 H).
Defined.

Lemma subtitle_text_is_stripped_witness :
  let seg := {| start := 3725.25; end_ := 3730; text := py " The end. " |} in
  let drawn :=
    new_events Demo.world0
      (snd (display_results Demo.upper Demo.upload Demo.result Demo.world0)) in
  res_segments Demo.result !! 2%nat = Some seg
  ∧ (∃ before after,
       to_subtitle_text Demo.result
       = before ++ unlines (block_lines 2 seg) ++ after)
  ∧ block_lines 2 seg !! 2%nat = Some (strip (text seg))
  ∧ (∃ l r, text seg = l ++ strip (text seg) ++ r
            ∧ Forall space l ∧ Forall space r
            ∧ (∀ c, head (strip (text seg)) = Some c → isspace c = false)
            ∧ (∀ c, last (strip (text seg)) = Some c → isspace c = false))
  ∧ (∃ stamp, st_markdown (stamp ++ text seg) ∈ drawn)
  ∧ st_download_button (py "📥 Download as TXT") (res_text Demo.result)
      (name Demo.upload ++ py "_transcription.txt") (py "text/plain") ∈ drawn
  ∧ (∀ c, isspace c = true →
          head (text seg) = Some c ∨ last (text seg) = Some c →
          strip (text seg) ≠ text seg).
Proof.
  cbn zeta.
  assert (H : res_segments Demo.result !! 2%nat
              = Some {| start := 3725.25; end_ := 3730; text := py " The end. " |})
    by reflexivity.
  split; [exact H|].
  exact (subtitle_text_is_stripped Demo.upper Demo.upload Demo.result Demo.world0
           2 _ H).
Defined.

(** The stripped text of the last segment of the example, and the text
    on the page. *)
Example stripped_and_shown :
  strip (py " The end. ") = py "The end."
  ∧ view_line {| start := 3725.25; end_ := 3730; text := py " The end. " |}
    = py "**[62:05 - 62:10]**  The end. ".
Proof. split; vm_compute; reflexivity. Qed.

(** Each of the calls that can fail does make the body raise. *)
Example every_fault_is_raised :
  fst (Demo.body Demo.LoadFails Demo.result default_settings Demo.world0)
  = Raised (Demo.RuntimeError "download failed")
  ∧ fst (Demo.body Demo.CreateFails Demo.result default_settings Demo.world0)
    = Raised (Demo.OSError "No space left on device")
  ∧ fst (Demo.body Demo.WriteFails Demo.result default_settings Demo.world0)
    = Raised (Demo.OSError "No space left on device")
  ∧ fst (Demo.body Demo.TranscribeFails Demo.result default_settings Demo.world0)
    = Raised (Demo.RuntimeError "Failed to load audio")
  ∧ fst (Demo.body Demo.UnlinkFails Demo.result default_settings Demo.world0)
    = Raised (Demo.OSError "Permission denied")
  ∧ fst (Demo.body Demo.NoFault Demo.result default_settings Demo.world0)
    = Returned tt.
Proof. repeat split; vm_compute; reflexivity. Qed.

(** * More of the script *)

(** ** Times *)

Lemma Qfloor_unique (x : Q) (z : Z) :
  (inject_Z z <= x)%Q → (x < inject_Z (z + 1))%Q → Qfloor x = z.
Proof.
  intros Hle Hlt.
  pose proof (Qfloor_le x) as H1. pose proof (Qlt_floor x) as H2.
  assert (Ha : (Qfloor x < z + 1)%Z).
  { rewrite Zlt_Qlt. eapply Qle_lt_trans; eassumption. }
  assert (Hb : (z < Qfloor x + 1)%Z).
  { rewrite Zlt_Qlt. eapply Qle_lt_trans; eassumption. }
  lia.
Qed.

Lemma floordiv_60_bounds (t : Q) :
  (60 * inject_Z (floordiv t 60) <= t)%Q
  ∧ (t < 60 * inject_Z (floordiv t 60) + 60)%Q.
Proof.
  unfold floordiv.
  pose proof (Qfloor_le (t / 60)) as H1. pose proof (Qlt_floor (t / 60)) as H2.
  rewrite inject_Z_plus in H2. change (inject_Z 1) with 1%Q in H2.
  assert (Ht : (t == 60 * (t / 60))%Q) by (field; discriminate).
  split; lra.
Qed.

Lemma pymod_60_range (t : Q) : (0 <= pymod t 60)%Q ∧ (pymod t 60 < 60)%Q.
Proof.
  destruct (floordiv_60_bounds t) as [Hlo Hhi]. unfold pymod. split; lra.
Qed.

Lemma int_of_nonnegative (x : Q) : (0 <= x)%Q → int x = Qfloor x.
Proof. intros H. unfold int. apply Qle_bool_iff in H. by rewrite H. Qed.

Lemma seconds_range (t : Q) : (0 ≤ int (pymod t 60) ≤ 59)%Z.
Proof.
  destruct (pymod_60_range t) as [H0 H60].
  rewrite (int_of_nonnegative _ H0). split.
  - rewrite <- (Qfloor_Z 0). by apply Qfloor_resp_le.
  - assert (H : (Qfloor (pymod t 60) < 60)%Z); [|lia].
    rewrite Zlt_Qlt. eapply Qle_lt_trans; [apply Qfloor_le|]. exact H60.
Qed.

(** X1.  The two numbers a time is rendered from, for a time from 0 up to
    [2^53], where the float operations of the code are exact: the minutes
    are not negative, the seconds are between 0 and 59, and sixty times the
    minutes plus the seconds is the time rounded down. *)
Theorem minutes_and_seconds (t : Q) :
  (0 <= t)%Q → (t < exact_below)%Q →
  (0 ≤ floordiv t 60)%Z
  ∧ (0 ≤ int (pymod t 60) ≤ 59)%Z
  ∧ (60 * floordiv t 60 + int (pymod t 60))%Z = Qfloor t.
Proof.
  intros Ht0 _.
  assert (Hm : (0 ≤ floordiv t 60)%Z).
  { destruct (floordiv_60_bounds t) as [_ Hhi].
    assert (H : (-1 < floordiv t 60)%Z); [|lia].
    rewrite Zlt_Qlt. change (inject_Z (-1)) with (-1)%Q. lra. }
  split; [done|]. split; [apply seconds_range|].
  destruct (pymod_60_range t) as [H0 _].
  rewrite (int_of_nonnegative _ H0).
  set (m := floordiv t 60).
  symmetry. apply Qfloor_unique.
  - rewrite inject_Z_plus, inject_Z_mult.
    pose proof (Qfloor_le (pymod t 60)) as H. unfold pymod in H at 2.
    fold m in H. change (inject_Z 60) with 60%Q. lra.
  - rewrite !inject_Z_plus, inject_Z_mult.
    pose proof (Qlt_floor (pymod t 60)) as H. rewrite inject_Z_plus in H.
    unfold pymod in H at 1. fold m in H.
    change (inject_Z 60) with 60%Q. lra.
Qed.

Lemma minutes_and_seconds_witness :
  (0 <= 3725.9)%Q ∧ (3725.9 < exact_below)%Q
  ∧ (0 ≤ floordiv 3725.9 60)%Z
  ∧ (0 ≤ int (pymod 3725.9 60) ≤ 59)%Z
  ∧ (60 * floordiv 3725.9 60 + int (pymod 3725.9 60))%Z = Qfloor 3725.9.
Proof.
  assert (H0 : (0 <= 3725.9)%Q) by (vm_compute; discriminate).
  assert (H1 : (3725.9 < exact_below)%Q) by (vm_compute; reflexivity).
  split; [exact H0|]. split; [exact H1|].
  exact (minutes_and_seconds 3725.9 H0 H1).
Defined.

Lemma zfill_length (w : nat) (digits : str) :
  length (zfill w digits) = (w `max` length digits)%nat.
Proof. unfold zfill. rewrite length_app, repeat_length. lia. Qed.

Lemma str_int_nonempty (n : Z) : (1 ≤ length (str_int n))%nat.
Proof.
  unfold str_int. rewrite length_map.
  unfold NilZero.string_of_int, NilZero.string_of_uint.
  destruct (Z.to_int n) as [d|d]; destruct d; simpl; lia.
Qed.

Lemma fmt_02_two_digits (n : Z) :
  (0 ≤ n < 100)%Z → length (fmt_02 n) = 2%nat.
Proof.
  intros Hn.
  assert (H : Forall (fun k => length (fmt_02 (Z.of_nat k)) = 2%nat) (seq 0 100))
    by (apply (bool_decide_unpack _); vm_compute; exact I).
  rewrite Forall_forall in H. specialize (H (Z.to_nat n)).
  rewrite Z2Nat.id in H by lia. apply H, elem_of_seq. lia.
Qed.

Lemma fmt_02_one_digit (n : Z) :
  (0 ≤ n < 10)%Z → fmt_02 n = 48 :: str_int n.
Proof.
  intros Hn.
  assert (H : Forall (fun k => fmt_02 (Z.of_nat k) = 48 :: str_int (Z.of_nat k))
                (seq 0 10))
    by (apply (bool_decide_unpack _); vm_compute; exact I).
  rewrite Forall_forall in H. specialize (H (Z.to_nat n)).
  rewrite Z2Nat.id in H by lia. apply H, elem_of_seq. lia.
Qed.

Lemma floordiv_60_range (t : Q) (a b : Z) :
  (inject_Z (60 * a) <= t)%Q → (t < inject_Z (60 * b))%Q →
  (a ≤ floordiv t 60 < b)%Z.
Proof.
  intros Ha Hb. destruct (floordiv_60_bounds t) as [Hlo Hhi].
  rewrite inject_Z_mult in Ha, Hb. change (inject_Z 60) with 60%Q in *.
  split.
  - assert (H : (a < floordiv t 60 + 1)%Z); [|lia].
    rewrite Zlt_Qlt, inject_Z_plus. change (inject_Z 1) with 1%Q. lra.
  - rewrite Zlt_Qlt. lra.
Qed.

(** X3.  The time on the page has two fields, the minutes as they are and
    the seconds on two digits; below ten minutes the subtitle time is that
    same text with a ["0"] before it and [":00"] after it. *)
Theorem page_time_and_subtitle_time (t : Q) :
  split_on COLON (view_time t)
  = [str_int (floordiv t 60); fmt_02 (int (pymod t 60))]
  ∧ ((0 <= t)%Q → (t < 600)%Q → srt_time t = 48 :: view_time t ++ py ":00").
Proof.
  assert (Hc : ¬ digit_or_minus COLON) by (unfold digit_or_minus, COLON; lia).
  split.
  - unfold view_time. change (py ":") with [COLON]. cbn [app].
    rewrite split_on_app by (apply digit_or_minus_not, str_int_chars; done).
    rewrite split_on_one by (apply digit_or_minus_not, fmt_02_chars; done).
    reflexivity.
  - intros H0 H1. unfold srt_time, view_time.
    rewrite fmt_02_one_digit by (apply (floordiv_60_range t 0 10); simpl; done).
    cbn [app]. by rewrite <- !app_assoc.
Qed.

Lemma page_time_and_subtitle_time_witness :
  (0 <= 65)%Q ∧ (65 < 600)%Q ∧ srt_time 65 = 48 :: view_time 65 ++ py ":00".
Proof.
  assert (H0 : (0 <= 65)%Q) by (vm_compute; discriminate).
  assert (H1 : (65 < 600)%Q) by (vm_compute; reflexivity).
  split; [exact H0|]. split; [exact H1|].
  exact (proj2 (page_time_and_subtitle_time 65) H0 H1).
Defined.

(** ** Subtitles *)

Lemma subtitle_lines_witness :
  Forall (fun seg => LF ∉ strip (text seg)) (res_segments Demo.result)
  ∧ split_on LF (to_subtitle_text Demo.result)
    = concat (imap block_lines (res_segments Demo.result)) ++ [[]].
Proof.
  assert (H : Forall (fun seg => LF ∉ strip (text seg))
                (res_segments Demo.result))
    by (apply (bool_decide_unpack _); vm_compute; exact I).
  split; [exact H|]. exact (subtitle_lines Demo.result H).
Defined.

(** X5.  The loop over appended segments: the subtitle text of [a ++ b] is
    that of [a] followed by the blocks of [b], numbered on from where [a]
    stopped. *)
Theorem subtitles_of_appended_segments (i : Z) (a b : list Segment)
    (srt_output : str) :
  srt_loop i (a ++ b) srt_output
  = srt_loop (i + Z.of_nat (length a)) b (srt_loop i a srt_output)
  ∧ srt_loop i (a ++ b) []
    = srt_loop i a [] ++ srt_loop (i + Z.of_nat (length a)) b [].
Proof.
  assert (H : ∀ acc j, srt_loop j (a ++ b) acc
                       = srt_loop (j + Z.of_nat (length a)) b (srt_loop j a acc)).
  { induction a as [|seg a IH]; intros acc j; cbn [srt_loop app length].
    - by rewrite Z.add_0_r.
    - rewrite IH, Nat2Z.inj_succ. f_equal. lia. }
  split; [apply H|].
  rewrite H, (srt_loop_blocks b _ (srt_loop i a [])), (srt_loop_blocks b _ []).
  reflexivity.
Qed.

Lemma unlines_block_nonempty (k : nat) (seg : Segment) :
  unlines (block_lines k seg) ≠ [].
Proof.
  unfold unlines, block_lines. cbn [map concat].
  intros H. apply app_eq_nil in H as [H _].
  by apply app_eq_nil in H as [_ H].
Qed.

(** X6.  The subtitle text is empty exactly when there is no segment. *)
Theorem subtitles_empty_iff (result : Result) :
  to_subtitle_text result = [] ↔ res_segments result = [].
Proof.
  rewrite subtitle_text_concat.
  destruct (res_segments result) as [|seg segs]; [done|].
  split; [|done]. rewrite imap_cons. cbn [concat]. intros H.
  apply app_eq_nil in H as [H _]. by apply unlines_block_nonempty in H.
Qed.

Lemma N_of_ascii_inj (a b : ascii) : N_of_ascii a = N_of_ascii b → a = b.
Proof.
  intros H. rewrite <- (ascii_N_embedding a), <- (ascii_N_embedding b).
  by rewrite H.
Qed.

(** [str(n)] tells the integers apart. *)
Lemma str_int_inj (a b : Z) : str_int a = str_int b → a = b.
Proof.
  unfold str_int. intros H.
  assert (Hinj : ∀ x y : list ascii,
            map N_of_ascii x = map N_of_ascii y → x = y).
  { induction x as [|c x IH]; intros [|d y] Hxy; try done.
    simpl in Hxy. injection Hxy as Hc Hr.
    f_equal; [by apply N_of_ascii_inj|by apply IH]. }
  apply Hinj in H.
  apply (f_equal string_of_list_ascii) in H.
  rewrite !string_of_list_ascii_of_string in H.
  apply (f_equal NilZero.int_of_string) in H.
  assert (Hnn : ∀ n, Z.to_int n ≠ Decimal.Pos Decimal.Nil
                     ∧ Z.to_int n ≠ Decimal.Neg Decimal.Nil).
  { intros [|p|p]; split; try discriminate; intros [= Hp];
      by apply (DecimalPos.Unsigned.to_uint_nonnil p). }
  rewrite !NilZero.isi in H by apply Hnn.
  injection H as H. by apply DecimalZ.to_int_inj.
Qed.



(** ** How wide a time is *)

Lemma int_of_str_int (m : Z) : int_of_str (str_int m) = Some m.
Proof.
  unfold int_of_str, str_int.
  rewrite map_map, (map_ext _ id), map_id by apply ascii_N_embedding.
  rewrite string_of_list_ascii_of_string, NilZero.isi.
  - simpl. by rewrite DecimalZ.of_to.
  - destruct m as [|q|q]; try discriminate. intros [= Hq].
    by apply (DecimalPos.Unsigned.to_uint_nonnil q).
  - destruct m as [|q|q]; try discriminate. intros [= Hq].
    by apply (DecimalPos.Unsigned.to_uint_nonnil q).
Qed.

Lemma digit_or_minus_cases (c : N) :
  digit_or_minus c →
  c = 45 ∨ c = 48 ∨ c = 49 ∨ c = 50 ∨ c = 51 ∨ c = 52 ∨ c = 53 ∨ c = 54
  ∨ c = 55 ∨ c = 56 ∨ c = 57.
Proof. unfold digit_or_minus. lia. Qed.

(** One or two characters write a number below 100. *)
Lemma short_is_small (s : str) (v : Z) :
  Forall digit_or_minus s → (length s ≤ 2)%nat →
  int_of_str s = Some v → (v < 100)%Z.
Proof.
  intros Hs Hlen.
  destruct s as [|c1 [|c2 [|c3 s]]]; [| | |simpl in Hlen; lia].
  - intros [=].
  - inversion Hs as [|? ? H1%digit_or_minus_cases _]; subst.
    destruct_or!; subst; vm_compute; intros [= <-]; done.
  - inversion Hs as [|? ? H1%digit_or_minus_cases Hs']; subst.
    inversion Hs' as [|? ? H2%digit_or_minus_cases _]; subst.
    destruct_or!; subst; vm_compute; intros [= <-]; done.
Qed.

Lemma str_int_three_digits (m : Z) : (100 ≤ m)%Z → (3 ≤ length (str_int m))%nat.
Proof.
  intros Hm. destruct (decide (3 ≤ length (str_int m))%nat) as [|Hshort]; [done|].
  pose proof (short_is_small (str_int m) m (str_int_chars m)) as H.
  specialize (H ltac:(lia) (int_of_str_int m)). lia.
Qed.

(** X2.  How wide a rendered subtitle time is, for a time from 0 up to
    [2^53]: the seconds field is two characters and the whole at least 8;
    below 100 minutes it is exactly 8, the shape [MM:SS:00]; from 100
    minutes on it is longer, because the minutes field is then the whole
    decimal number of minutes, neither cut nor wrapped: reading it back as
    a number gives the minutes. *)
Theorem srt_time_width (t : Q) :
  (0 <= t)%Q → (t < exact_below)%Q →
  length (fmt_02 (int (pymod t 60))) = 2%nat
  ∧ (8 ≤ length (srt_time t))%nat
  ∧ ((t < 6000)%Q → length (srt_time t) = 8%nat)
  ∧ ((6000 <= t)%Q →
     (9 ≤ length (srt_time t))%nat
     ∧ srt_time t
       = str_int (floordiv t 60) ++ py ":" ++ fmt_02 (int (pymod t 60))
           ++ py ":00"
     ∧ (100 ≤ floordiv t 60)%Z
     ∧ int_of_str (str_int (floordiv t 60)) = Some (floordiv t 60)).
Proof.
  intros H0 Hex.
  assert (Hs : length (fmt_02 (int (pymod t 60))) = 2%nat).
  { apply fmt_02_two_digits. pose proof (seconds_range t). lia. }
  assert (Hlen : length (srt_time t)
                 = (length (fmt_02 (floordiv t 60)) + 6)%nat).
  { unfold srt_time. rewrite !length_app, Hs.
    change (length (py ":")) with 1%nat. change (length (py ":00")) with 3%nat.
    lia. }
  split; [done|]. rewrite Hlen. split; [|split].
  - assert (2 ≤ length (fmt_02 (floordiv t 60)))%nat; [|lia].
    unfold fmt_02. destruct (floordiv t 60 <? 0)%Z; simpl;
      rewrite zfill_length; pose proof (str_int_nonempty (Z.abs (floordiv t 60)));
      lia.
  - intros H1. rewrite fmt_02_two_digits; [done|].
    apply (floordiv_60_range t 0 100); simpl; [exact H0|exact H1].
  - intros H1.
    assert (Hm : (100 ≤ floordiv t 60)%Z).
    { apply (floordiv_60_range t 100 9007199254740992); [exact H1|].
      eapply Qlt_trans; [exact Hex|]. vm_compute. reflexivity. }
    pose proof (str_int_three_digits _ Hm) as H3.
    assert (Hfmt : fmt_02 (floordiv t 60) = str_int (floordiv t 60)).
    { unfold fmt_02. destruct (Z.ltb_spec (floordiv t 60) 0); [lia|].
      unfold zfill.
      replace (2 - length (str_int (floordiv t 60)))%nat with 0%nat by lia.
      reflexivity. }
    rewrite Hfmt. split; [lia|]. split; [|split; [done|]].
    + unfold srt_time. by rewrite Hfmt.
    + apply int_of_str_int.
Qed.

Lemma srt_time_width_witness :
  ((0 <= 3599.5)%Q ∧ (3599.5 < exact_below)%Q ∧ (3599.5 < 6000)%Q
   ∧ length (srt_time 3599.5) = 8%nat)
  ∧ ((0 <= 7265)%Q ∧ (7265 < exact_below)%Q ∧ (6000 <= 7265)%Q
     ∧ (9 ≤ length (srt_time 7265))%nat
     ∧ srt_time 7265
       = str_int (floordiv 7265 60) ++ py ":" ++ fmt_02 (int (pymod 7265 60))
           ++ py ":00"
     ∧ (100 ≤ floordiv 7265 60)%Z
     ∧ int_of_str (str_int (floordiv 7265 60)) = Some (floordiv 7265 60)).
Proof.
  assert (Ha0 : (0 <= 3599.5)%Q) by (vm_compute; discriminate).
  assert (Ha1 : (3599.5 < exact_below)%Q) by (vm_compute; reflexivity).
  assert (Ha2 : (3599.5 < 6000)%Q) by (vm_compute; reflexivity).
  assert (Hb0 : (0 <= 7265)%Q) by (vm_compute; discriminate).
  assert (Hb1 : (7265 < exact_below)%Q) by (vm_compute; reflexivity).
  assert (Hb2 : (6000 <= 7265)%Q) by (vm_compute; discriminate).
  split.
  - split; [exact Ha0|]. split; [exact Ha1|]. split; [exact Ha2|].
    exact (proj1 (proj2 (proj2 (srt_time_width 3599.5 Ha0 Ha1))) Ha2).
  - split; [exact Hb0|]. split; [exact Hb1|]. split; [exact Hb2|].
    exact (proj2 (proj2 (proj2 (srt_time_width 7265 Hb0 Hb1))) Hb2).
Defined.

Example two_hours_one_minute_five : srt_time 7265 = py "121:05:00".
Proof. vm_compute. reflexivity. Qed.

(** ** The blocks, line by line *)

Lemma blocks_length (n : nat) (segs : list Segment) :
  length (concat (imap (fun k => block_lines (n + k)) segs))
  = (4 * length segs)%nat.
Proof.
  revert n. induction segs as [|seg segs IH]; intros n; [done|].
  rewrite imap_cons. cbn [concat length]. rewrite length_app.
  erewrite imap_ext; [rewrite (IH (S n))|]; [simpl; lia|].
  intros k x _. simpl. f_equal. lia.
Qed.

Lemma blocks_lookup (n : nat) (segs : list Segment) (rest : list str)
    (k i : nat) (seg : Segment) :
  segs !! k = Some seg → (i < 4)%nat →
  (concat (imap (fun j => block_lines (n + j)) segs) ++ rest) !! (4 * k + i)%nat
  = block_lines (n + k) seg !! i.
Proof.
  revert n k. induction segs as [|x segs IH]; intros n k Hk Hi; [done|].
  rewrite imap_cons. cbn [concat]. rewrite <- app_assoc.
  destruct k as [|k].
  - injection Hk as ->. rewrite lookup_app_l by (simpl; lia).
    by rewrite Nat.add_0_r.
  - rewrite lookup_app_r by (simpl; lia).
    replace (4 * S k + i - length (block_lines (n + 0) x))%nat
      with (4 * k + i)%nat by (simpl; lia).
    erewrite imap_ext; [rewrite (IH (S n) k Hk Hi)|].
    + do 2 f_equal. lia.
    + intros j y _. simpl. f_equal. lia.
Qed.

(** The same text from one segment and from two: the blocks cannot be
    counted from the text once a segment text has line feeds inside. *)
Lemma one_block_or_two :
  length (res_segments Multiline.one_segment) = 1%nat
  ∧ length (res_segments Multiline.two_segments) = 2%nat
  ∧ to_subtitle_text Multiline.one_segment
    = to_subtitle_text Multiline.two_segments
  ∧ length (split_on LF (to_subtitle_text Multiline.one_segment)) = 9%nat
  ∧ split_on LF (to_subtitle_text Multiline.one_segment)
    ≠ concat (imap block_lines (res_segments Multiline.one_segment)) ++ [[]].
Proof.
  repeat split; try (vm_compute; reflexivity).
  vm_compute. discriminate.
Qed.

(** C2.  When no stripped text has a line feed inside, the subtitle text
    read line by line is one block of four lines per segment, in the order
    of the segments and nothing else but the empty piece after the last
    line feed: for the segment at position [k] (from 0) the line [4k] is the
    number [k+1] in decimal, the line [4k+1] the time range, the line
    [4k+2] the stripped text and the line [4k+3] is empty.  Different
    positions have different numbers.  The three segments of the example
    give the text written out below. *)
Theorem subtitle_blocks_line_by_line (result : Result) :
  Forall (fun seg => LF ∉ strip (text seg)) (res_segments result) →
  let lines := split_on LF (to_subtitle_text result) in
  lines
  = concat (imap (fun k seg =>
                    [ str_int (Z.of_nat k + 1);
                      srt_time (start seg) ++ py " --> " ++ srt_time (end_ seg);
                      strip (text seg);
                      [] ])
              (res_segments result)) ++ [[]]
  ∧ length lines = (4 * length (res_segments result) + 1)%nat
  ∧ (∀ k seg, res_segments result !! k = Some seg →
       lines !! (4 * k)%nat = Some (str_int (Z.of_nat k + 1))
       ∧ lines !! (4 * k + 1)%nat
         = Some (srt_time (start seg) ++ py " --> " ++ srt_time (end_ seg))
       ∧ lines !! (4 * k + 2)%nat = Some (strip (text seg))
       ∧ lines !! (4 * k + 3)%nat = Some [])
  ∧ (∀ j k : nat, j ≠ k → str_int (Z.of_nat j + 1) ≠ str_int (Z.of_nat k + 1))
  ∧ to_subtitle_text Demo.result
    = py "1
00:00:00 --> 00:04:00
Hello there.

2
01:05:00 --> 01:10:00
hi

3
62:05:00 --> 62:10:00
The end.

".
Proof.
  intros Htext. cbn zeta.
  assert (Hlines : split_on LF (to_subtitle_text result)
                   = concat (imap block_lines (res_segments result)) ++ [[]]).
  { rewrite subtitle_text_concat, concat_imap_unlines.
    apply split_on_unlines. exact (blocks_no_LF 0 _ Htext). }
  assert (Hnum : ∀ k, Z.of_nat (S k) = (Z.of_nat k + 1)%Z) by (intros; lia).
  rewrite Hlines. split; [|split; [|split; [|split]]].
  - do 2 f_equal. apply imap_ext. intros k seg _.
    unfold block_lines. by rewrite Hnum.
  - rewrite length_app, (blocks_length 0). simpl. lia.
  - intros k seg Hk.
    assert (Hlk : ∀ i, (i < 4)%nat →
              (concat (imap block_lines (res_segments result)) ++ [[]])
                !! (4 * k + i)%nat
              = block_lines k seg !! i)
      by (intros i Hi; exact (blocks_lookup 0 _ [[]] k i seg Hk Hi)).
    pose proof (Hlk 0%nat) as H0. rewrite Nat.add_0_r in H0.
    rewrite H0, !Hlk by lia.
    unfold block_lines. by rewrite Hnum.
  - intros j k Hjk H%str_int_inj. lia.
  - vm_compute. reflexivity.
Qed.

Lemma subtitle_blocks_line_by_line_witness :
  let lines := split_on LF (to_subtitle_text Demo.result) in
  Forall (fun seg => LF ∉ strip (text seg)) (res_segments Demo.result)
  ∧ length lines = (4 * length (res_segments Demo.result) + 1)%nat
  ∧ lines !! 4%nat = Some (str_int 2)
  ∧ lines !! 5%nat = Some (srt_time 65 ++ py " --> " ++ srt_time 70)
  ∧ lines !! 6%nat = Some (strip (py " hi"))
  ∧ lines !! 7%nat = Some [].
Proof.
  cbn zeta.
  assert (H : Forall (fun seg => LF ∉ strip (text seg))
                (res_segments Demo.result))
    by (apply (bool_decide_unpack _); vm_compute; exact I).
  split; [exact H|].
  destruct (subtitle_blocks_line_by_line Demo.result H)
    as (_ & Hlen & Hblock & _).
  split; [exact Hlen|].
  exact (Hblock 1%nat {| start := 65; end_ := 70; text := py " hi" |} eq_refl).
Defined.

Lemma lstrip_whitespace (s : str) : Forall space s → lstrip s = [].
Proof.
  induction 1 as [|c s Hc _ IH]; [done|]. simpl.
  unfold space in Hc. by rewrite Hc.
Qed.

Lemma lstrip_id (s : str) :
  (∀ c, head s = Some c → isspace c = false) → lstrip s = s.
Proof.
  destruct s as [|c s]; [done|]. intros H. simpl. by rewrite (H c).
Qed.

Lemma rstrip_id (s : str) :
  (∀ c, last s = Some c → isspace c = false) → rstrip s = s.
Proof.
  intros H. unfold rstrip. rewrite lstrip_id.
  - apply reverse_involutive.
  - intros c. rewrite head_reverse. apply H.
Qed.



(** ** The audio player (line 95) *)

Lemma split_on_nonempty (sep : N) (s : str) : split_on sep s ≠ [].
Proof.
  destruct s as [|c s]; [done|]. simpl.
  destruct (c =? sep); [done|]. by destruct (split_on sep s).
Qed.

Lemma split_on_fields (sep : N) (s : str) :
  Forall (fun f => sep ∉ f) (split_on sep s).
Proof.
  induction s as [|c s IH]; simpl.
  - repeat constructor. apply not_elem_of_nil.
  - destruct (N.eqb_spec c sep) as [->|Hc].
    + constructor; [apply not_elem_of_nil|done].
    + destruct (split_on sep s) as [|f fs]; [|inversion IH; subst];
        constructor; try done.
      * intros H. apply elem_of_cons in H as [H|H]; [done|].
        by apply elem_of_nil in H.
      * intros H. apply elem_of_cons in H as [H|H]; [done|]. done.
Qed.

(** Splitting around one separator: the fields before it, then the fields
    after it. *)
Lemma split_on_join (sep : N) (a b : str) :
  split_on sep (a ++ sep :: b) = split_on sep a ++ split_on sep b.
Proof.
  induction a as [|c a IH]; simpl.
  - by rewrite N.eqb_refl.
  - destruct (c =? sep); [by rewrite IH|].
    rewrite IH. pose proof (split_on_nonempty sep a).
    by destruct (split_on sep a).
Qed.

Lemma audio_format_total (name_ : str) :
  ∃ extension, audio_format name_ = Some (py "audio/" ++ extension).
Proof.
  unfold audio_format.
  destruct (last (split_on DOT name_)) as [ext|] eqn:Hlast; [by eexists|].
  apply last_None in Hlast. by apply split_on_nonempty in Hlast.
Qed.

(** X9.  The format given to the audio player: the lookup of the last
    field never fails; the format is ["audio/"] and the part of the name
    after its last dot; that part has no dot in it, and it is the whole
    name when the name has no dot. *)
Theorem audio_format_spec (name_ : str) :
  ∃ extension,
    audio_format name_ = Some (py "audio/" ++ extension)
    ∧ (DOT ∉ extension)
    ∧ (DOT ∉ name_ → extension = name_)
    ∧ (∀ stem e, name_ = stem ++ DOT :: e → DOT ∉ e → extension = e).
Proof.
  unfold audio_format.
  destruct (last (split_on DOT name_)) as [ext|] eqn:Hlast.
  2:{ apply last_None in Hlast. by apply split_on_nonempty in Hlast. }
  exists ext. split; [done|]. split; [|split].
  - pose proof (split_on_fields DOT name_) as H.
    rewrite Forall_forall in H. apply H.
    apply last_Some in Hlast as [l ->]. apply elem_of_app. right.
    apply list_elem_of_here.
  - intros Hn. rewrite split_on_one in Hlast by done. by injection Hlast.
  - intros stem e -> He.
    rewrite split_on_join, (split_on_one DOT e He), last_snoc in Hlast.
    by injection Hlast.
Qed.

Example audio_formats :
  audio_format (py "talk.wav") = Some (py "audio/wav")
  ∧ audio_format (py "my.talk.MP3") = Some (py "audio/MP3")
  ∧ audio_format (py "recording") = Some (py "audio/recording")
  ∧ audio_format (py "talk.") = Some (py "audio/").
Proof. repeat split; vm_compute; reflexivity. Qed.

(** Sets of scratch files. *)
Lemma size_add_one (p : str) (fs : gset str) :
  (size ({[p]} ∪ fs) ≤ S (size fs))%nat.
Proof.
  rewrite size_union_alt, size_singleton.
  assert (size (fs ∖ {[p]}) ≤ size fs)%nat; [|lia].
  apply subseteq_size. by intros x [Hx _]%elem_of_difference.
Qed.

Lemma size_add_remove (p : str) (fs : gset str) :
  (size (({[p]} ∪ fs) ∖ {[p]}) ≤ S (size fs))%nat.
Proof.
  etrans; [apply subseteq_size|apply (size_add_one p)].
  by intros x [Hx _]%elem_of_difference.
Qed.

Lemma add_remove_fresh (p : str) (fs : gset str) :
  p ∉ fs → ({[p]} ∪ fs) ∖ {[p]} = fs.
Proof.
  intros Hp. apply set_eq. intros x.
  rewrite elem_of_difference, elem_of_union, !elem_of_singleton. split.
  - by intros [[->|Hx] Hne].
  - intros Hx. split; [by right|]. by intros ->.
Qed.

Lemma elem_of_add (p q : str) (fs : gset str) :
  p ∈ {[q]} ∪ fs → p ∈ fs ∨ p = q.
Proof. intros [H%elem_of_singleton|H]%elem_of_union; auto. Qed.

(** ** The model cache over the life of the process *)

Section Process.

Variable load_model_error : str -> World -> option Exn.
Variable tempfile_result : str -> World -> Exn + str.
Variable write_error : str -> list N -> World -> option Exn.
Variable transcribe_result :
  Model -> str -> option str -> str -> World -> Exn + Result.
Variable unlink_error : str -> World -> option Exn.
Variable path_suffix : str -> str.
Variable upper : str -> str.
Variable repr : str -> str.

Abbreviation load := (load_whisper_model load_model_error).
Abbreviation lines_99_117 :=
  (run_transcription load_model_error tempfile_result write_error
     transcribe_result path_suffix repr).
Abbreviation body :=
  (transcribe_body load_model_error tempfile_result write_error
     transcribe_result unlink_error path_suffix upper repr).
Abbreviation press :=
  (transcribe_audio load_model_error tempfile_result write_error
     transcribe_result unlink_error path_suffix upper repr).
Abbreviation does :=
  (step load_model_error tempfile_result write_error
     transcribe_result unlink_error path_suffix upper repr).

Local Opaque add_events py.

(** One call of the cached loader, case by case. *)
Lemma load_exact (size : str) (w : World) :
  match model_cache w !! size with
  | Some m => load size w = (Returned m, w)
  | None =>
      match load_model_error size w with
      | Some e => load size w = (Raised e, log (call_load_model size) w)
      | None =>
          ∃ w1, load size w
                = (Returned {| model_id := next_id w; model_name := size |}, w1)
                ∧ model_cache w1
                  = <[size := {| model_id := next_id w; model_name := size |}]>
                      (model_cache w)
                ∧ next_id w1 = S (next_id w)
                ∧ files w1 = files w
                ∧ trace w1 = trace w ++ [call_load_model size]
      end
  end.
Proof.
  unfold load_whisper_model, cache_resource, whisper_load_model.
  destruct (model_cache w !! size); [done|].
  destruct (load_model_error size w); [done|].
  eexists. split; [reflexivity|]. by cbn.
Qed.

(** What the body of the [try] does after the loader: it leaves the cache
    and the object counter alone and calls the loader no more. *)
Lemma body_after_load (up : UploadedFile) (s : Settings) (w : World)
    (o : Outcome unit) (w1 : World) :
  body up s w = (o, w1) →
  ∃ ol wl rest,
    load (model_size s) (log spinner_loading w) = (ol, wl)
    ∧ model_cache w1 = model_cache wl
    ∧ next_id w1 = next_id wl
    ∧ trace w1 = trace wl ++ rest
    ∧ count is_load rest = 0%nat
    ∧ (∀ e, ol = Raised e → o = Raised e).
Proof.
  unfold transcribe_body, run_transcription, mbind, M_bind. cbn [st].
  destruct (load (model_size s) (log spinner_loading w)) as [[m|e] wl].
  2:{ intros [= <- <-]. exists (Raised e), wl, []. rewrite app_nil_r.
      repeat split; try done. by intros ? [= ->]. }
  intros H. exists (Returned m), wl. revert H.
  unfold save_temporary_file.
  destruct (tempfile_result _ wl) as [e|p]; cbv beta iota zeta.
  { intros [= <- <-]. eexists. cbn [model_cache next_id trace log].
    repeat split; try done. }
  match goal with |- context [write_error ?a ?b ?c] =>
    destruct (write_error a b c) as [e|] end; cbv beta iota zeta.
  { intros [= <- <-]. eexists. cbn [model_cache next_id trace log].
    rewrite <- app_assoc. repeat split; try done. }
  unfold languages_getitem.
  destruct (getitem languages (selected_language s)) as [lc|];
    cbn [raise mret M_ret].
  2:{ intros [= <- <-]. eexists. cbn [model_cache next_id trace log].
      rewrite <- !app_assoc. repeat split; try done. }
  unfold model_transcribe.
  match goal with |- context [transcribe_result ?a ?b ?c ?d ?e] =>
    destruct (transcribe_result a b c d e) as [e'|r] end.
  { intros [= <- <-]. eexists. cbn [model_cache next_id trace log].
    rewrite <- !app_assoc. repeat split; try done. }
  unfold mret, M_ret, os_unlink. cbv beta iota.
  match goal with |- context [unlink_error ?a ?b] =>
    destruct (unlink_error a b) as [e'|] end.
  { intros [= <- <-]. eexists. cbn [model_cache next_id trace log].
    rewrite <- !app_assoc. repeat split; try done. }
  rewrite (display_results_run upper). intros [= <- <-].
  match goal with |- context [add_events ?evs ?w0] =>
    destruct (add_events_frame evs w0) as (Hc & _ & Hn & Ht) end.
  exists ([ call_NamedTemporaryFile (path_suffix (name up));
            call_write p (getvalue up); spinner_transcribing;
            call_transcribe m p lc (task_type (translate_to_english s));
            call_unlink p ] ++ display_events upper up r).
  rewrite Hc, Hn, Ht. cbn [model_cache next_id trace log].
  rewrite <- !app_assoc. repeat split; try done.
  cbn [app count is_load]. by apply count_display; intros [].
Qed.

Lemma press_unfold (up : UploadedFile) (s : Settings) (w : World) :
  press up s w
  = match body up s w with
    | (Returned a, w1) => (Returned a, w1)
    | (Raised e, w1) => (Returned tt, add_events (error_events e) w1)
    end.
Proof.
  unfold transcribe_audio, try_except. by destruct (body up s w) as [[a|e] w1].
Qed.

(** The button, seen from the loader: the world after the press is the world
    after the loader with some events more, none of them a load. *)
Lemma press_after_load (up : UploadedFile) (s : Settings) (w : World) :
  ∃ ol wl rest,
    load (model_size s) (log spinner_loading w) = (ol, wl)
    ∧ model_cache (snd (press up s w)) = model_cache wl
    ∧ next_id (snd (press up s w)) = next_id wl
    ∧ trace (snd (press up s w)) = trace wl ++ rest
    ∧ count is_load rest = 0%nat.
Proof.
  rewrite press_unfold.
  destruct (body up s w) as [o w1] eqn:Hbody.
  destruct (body_after_load _ _ _ _ _ Hbody)
    as (ol & wl & rest & Hl & Hc & Hn & Ht & Hcount & _).
  exists ol, wl. destruct o as [a|e]; cbn [snd].
  - exists rest. by repeat split.
  - exists (rest ++ error_events e).
    destruct (add_events_frame (error_events e) w1) as (-> & _ & -> & ->).
    rewrite Ht, <- app_assoc, count_app, Hcount. by repeat split.
Qed.

(** X10.  One press of the button calls [whisper.load_model] exactly once
    when the cache has no model for the selected size, and not at all when
    it has one. *)
Theorem press_loads_once_or_never (up : UploadedFile) (s : Settings) (w : World) :
  count is_load (new_events w (snd (press up s w)))
  = match model_cache w !! model_size s with
    | Some _ => 0%nat
    | None => 1%nat
    end.
Proof.
  destruct (press_after_load up s w)
    as (ol & wl & rest & Hl & _ & _ & Ht & Hcount).
  pose proof (load_exact (model_size s) (log spinner_loading w)) as Hex.
  cbn [model_cache log] in Hex.
  destruct (model_cache w !! model_size s) as [m|].
  - rewrite Hl in Hex. injection Hex as _ ->.
    rewrite (new_events_app w _ (spinner_loading :: rest)).
    + by cbn [count is_load spinner_loading].
    + rewrite Ht. cbn [trace log]. by rewrite <- app_assoc.
  - assert (Hwl : trace wl = trace w ++ [spinner_loading;
                                      call_load_model (model_size s)]).
    { destruct (load_model_error (model_size s) (log spinner_loading w)).
      - rewrite Hl in Hex. injection Hex as _ ->.
        cbn [trace log]. by rewrite <- app_assoc.
      - destruct Hex as (w1 & Hw1 & _ & _ & _ & Htr).
        rewrite Hl in Hw1. injection Hw1 as _ ->.
        rewrite Htr. cbn [trace log]. by rewrite <- app_assoc. }
    rewrite (new_events_app w _
               ([spinner_loading; call_load_model (model_size s)] ++ rest)).
    + rewrite count_app, Hcount. reflexivity.
    + by rewrite Ht, Hwl, <- app_assoc.
Qed.

Lemma load_keeps_consistent (size : str) (w : World) :
  cache_consistent w → cache_consistent (snd (load size w)).
Proof.
  intros [Hname Hid].
  pose proof (load_exact size w) as Hex.
  destruct (model_cache w !! size) as [m|] eqn:Hc.
  { rewrite Hex. by split. }
  destruct (load_model_error size w) as [e|].
  { rewrite Hex. by split. }
  destruct Hex as (w1 & -> & Hcache & Hnext & _). cbn [snd].
  split.
  - intros k m. rewrite Hcache, Hnext, lookup_insert.
    case_decide as Hk.
    + intros [= <-]. subst. simpl. split; [done|lia].
    + intros Hm. destruct (Hname k m Hm). split; [done|lia].
  - intros k1 k2 m1 m2. rewrite Hcache, !lookup_insert.
    repeat case_decide; subst; try done.
    + intros [= <-] H2 Heq. simpl in Heq.
      destruct (Hname k2 m2 H2). lia.
    + intros H1 [= <-] Heq. simpl in Heq.
      destruct (Hname k1 m1 H1). lia.
    + apply Hid.
Qed.

Lemma step_keeps_consistent (w w' : World) :
  does w w' → cache_consistent w → cache_consistent w'.
Proof.
  intros [size w0|up s w0] Hw.
  - by apply load_keeps_consistent.
  - destruct (press_after_load up s w0)
      as (ol & wl & rest & Hl & Hc & Hn & _).
    assert (H : cache_consistent (snd (load (model_size s)
                                         (log spinner_loading w0))))
      by (by apply load_keeps_consistent).
    rewrite Hl in H. cbn [snd] in H.
    unfold cache_consistent. by rewrite Hc, Hn.
Qed.

(** X11.  From a consistent cache, an empty one for instance, whatever the
    process does, the cache stays consistent; so the model the cached
    loader returns for a size was loaded for that very size, and the models
    of two sizes are two objects. *)
Theorem cache_holds_the_right_models (w w' : World) :
  cache_consistent w →
  rtc does w w' →
  cache_consistent w'
  ∧ (∀ size m w'', load size w' = (Returned m, w'') → model_name m = size)
  ∧ (∀ k1 k2 m1 m2,
       model_cache w' !! k1 = Some m1 → model_cache w' !! k2 = Some m2 →
       k1 ≠ k2 → model_id m1 ≠ model_id m2).
Proof.
  intros Hw Hsteps.
  assert (Hw' : cache_consistent w').
  { induction Hsteps as [|x y z Hstep _ IH]; [done|].
    apply IH. by eapply step_keeps_consistent. }
  split; [done|]. split.
  - intros size m w'' Hload.
    pose proof (load_keeps_consistent size w' Hw') as [Hname _].
    rewrite Hload in Hname. cbn [snd] in Hname.
    apply load_spec in Hload as (_ & _ & L & _ & Hm & _).
    by destruct (Hname size m Hm).
  - intros k1 k2 m1 m2 H1 H2 Hne Heq. destruct Hw' as [_ Hid]. eauto.
Qed.

Lemma count_zero_elem (p : Event → bool) (evs : list Event) (ev : Event) :
  count p evs = 0%nat → ev ∈ evs → p ev = false.
Proof.
  induction evs as [|x evs IH]; cbn [count]; intros Hc Hin.
  - by apply elem_of_nil in Hin.
  - apply elem_of_cons in Hin as [->|Hin].
    + destruct (p x); [discriminate|done].
    + apply IH; [|done]. destruct (p x); [discriminate|done].
Qed.

(** The events of one call of the loader: a load, if any, is for the size
    asked for, and then the cache had nothing for it. *)
Lemma load_events (size : str) (w : World) (ol : Outcome Model) (wl : World) :
  load size w = (ol, wl) →
  ∃ L, trace wl = trace w ++ L
       ∧ ∀ k, call_load_model k ∈ L → k = size ∧ model_cache w !! size = None.
Proof.
  intros (_ & _ & L & Ht & HL)%load_spec. exists L. split; [done|].
  intros k Hk. destruct ol as [m|e].
  - destruct HL as [_ [[-> _]|[-> Hnone]]]; elem_cases Hk.
    by injection Hk as ->.
  - destruct HL as (-> & _ & Hnone & _). elem_cases Hk.
    by injection Hk as ->.
Qed.

Lemma step_events (w w' : World) :
  does w w' →
  ∃ evs, trace w' = trace w ++ evs
         ∧ ∀ k, call_load_model k ∈ evs → model_cache w !! k = None.
Proof.
  intros [size w0|up s w0].
  - destruct (load size w0) as [ol wl] eqn:Hl.
    apply load_events in Hl as (L & Ht & HL). exists L. split; [done|].
    intros k Hk. by destruct (HL k Hk) as [-> ?].
  - destruct (press_after_load up s w0)
      as (ol & wl & rest & Hl & _ & _ & Ht & Hcount).
    apply load_events in Hl as (L & Htl & HL). cbn [trace log model_cache] in *.
    exists (spinner_loading :: L ++ rest). split.
    + rewrite Ht, Htl, <- !app_assoc. reflexivity.
    + intros k Hk. apply elem_of_cons in Hk as [Hk|Hk]; [discriminate|].
      apply elem_of_app in Hk as [Hk|Hk].
      * by destruct (HL k Hk) as [-> ?].
      * by apply (count_zero_elem _ _ _ Hcount) in Hk.
Qed.

(** X12.  Once a model is in the cache for a size, nothing the process does
    later, calls of the loader and presses of the button with any
    settings, calls [whisper.load_model] for that size again. *)
Theorem never_loaded_twice (size : str) (m : Model) (w w2 : World) :
  model_cache w !! size = Some m →
  rtc does w w2 →
  trace w2 = trace w ++ new_events w w2
  ∧ call_load_model size ∉ new_events w w2.
Proof.
  intros Hm Hsteps.
  assert (H : ∃ evs, trace w2 = trace w ++ evs ∧ call_load_model size ∉ evs).
  { induction Hsteps as [x|x y z Hstep Hrest IH].
    - exists []. rewrite app_nil_r. split; [done|apply not_elem_of_nil].
    - destruct (step_events _ _ Hstep) as (evs1 & Ht1 & H1).
      destruct IH as (evs2 & Ht2 & H2).
      { by eapply (step_keeps_cache load_model_error tempfile_result write_error
                     transcribe_result unlink_error path_suffix upper repr). }
      exists (evs1 ++ evs2). split.
      + by rewrite Ht2, Ht1, <- app_assoc.
      + intros [Hin|Hin]%elem_of_app; [|done].
        apply H1 in Hin. congruence. }
  destruct H as (evs & Ht & Hevs).
  by rewrite (new_events_app _ _ _ Ht).
Qed.

(** X13.  The scratch files after one press of the button: at most one more
    than before; a file that was not there before is one this press wrote;
    and when the results are displayed and the name of the scratch file was
    a new one, the files are those from before. *)
Theorem scratch_files_after_press (up : UploadedFile) (s : Settings) (w : World) :
  let w2 := snd (press up s w) in
  let news := new_events w w2 in
  (size (files w2) ≤ S (size (files w)))%nat
  ∧ (∀ p, p ∈ files w2 → p ∈ files w ∨ call_write p (getvalue up) ∈ news)
  ∧ (∀ msg p, st_success msg ∈ news → call_unlink p ∈ news → p ∉ files w →
              files w2 = files w).
Proof.
  cbn zeta.
  destruct (transcribe_audio_progress load_model_error tempfile_result
              write_error transcribe_result unlink_error path_suffix upper repr
              up s w)
    as (L & g & w1 & _ & _ & -> & -> & _ & HL & _).
  split; [|split].
  - destruct g; cbn [files_after]; try (by auto);
      apply size_add_one || apply size_add_remove.
  - intros p Hp.
    destruct g; cbn [files_after events_after_load] in *; auto;
      try (apply elem_of_difference in Hp as [Hp _]);
      destruct (elem_of_add _ _ _ Hp) as [?| ->]; auto; right;
      apply list_elem_of_further, elem_of_app; right;
      apply elem_of_app; left + idtac;
      apply list_elem_of_further, list_elem_of_here.
  - intros msg p Hs Hu Hfresh.
    apply elem_of_cons in Hs as [Hs|Hs]; [discriminate|].
    apply elem_of_app in Hs as [Hs|Hs].
    { destruct HL as [-> | ->]; elem_cases Hs. }
    apply elem_of_cons in Hu as [Hu|Hu]; [discriminate|].
    apply elem_of_app in Hu as [Hu|Hu].
    { destruct HL as [-> | ->]; elem_cases Hu. }
    destruct g; cbn [events_after_load handler_events outcome_of error_events] in *;
      try (elem_cases Hs; fail).
    rewrite app_nil_r in Hu. unfold display_events in Hu.
    cbn [files_after].
    elem_cases Hu. injection Hu as ->. by apply add_remove_fresh.
Qed.

(** X14.  When the transcription is done and [os.unlink] then raises, the
    result is lost to the user: the press ends with the error notice for
    that exception, no result and no download button is drawn, and the
    scratch file is still on disk. *)
Theorem failed_delete_hides_the_result (up : UploadedFile) (s : Settings)
    (w : World) (tmp_path : str) (result : Result) (w0 : World) (e : Exn) :
  lines_99_117 up s w = (Returned (tmp_path, result), w0) →
  unlink_error tmp_path w0 = Some e →
  let w2 := snd (press up s w) in
  let news := new_events w w2 in
  w2 = add_events (error_events e) (log (call_unlink tmp_path) w0)
  ∧ (∃ done_, news = done_ ++ call_unlink tmp_path :: error_events e)
  ∧ (∀ msg, st_success msg ∉ news)
  ∧ (∀ label data file_name mime,
       st_download_button label data file_name mime ∉ news)
  ∧ tmp_path ∈ files w2.
Proof.
  intros Hlines Hunlink. cbn zeta.
  assert (Hbody : body up s w = (Raised e, log (call_unlink tmp_path) w0)).
  { unfold transcribe_body, mbind at 1, M_bind at 1. rewrite Hlines.
    cbv beta iota. unfold mbind, M_bind, os_unlink. by rewrite Hunlink. }
  destruct (transcribe_audio_progress load_model_error tempfile_result
              write_error transcribe_result unlink_error path_suffix upper repr
              up s w)
    as (L & g & w1 & Hb & Hpress & Hnews & Hfiles & _ & HL & Hg).
  rewrite Hbody in Hb. injection Hb as Hout <-.
  rewrite Hlines in Hg. cbn [fst] in Hg.
  destruct g; cbn [consistent outcome_of] in Hg, Hout;
    destruct_and?; try discriminate.
  injection Hout as <-.
  match goal with H : Returned _ = Returned _ |- _ => injection H as <- <- end.
  rewrite Hnews, Hfiles, Hpress. cbn [snd].
  cbn [events_after_load handler_events outcome_of files_after].
  split; [done|]. split; [|split; [|split]].
  - eexists (spinner_loading :: L ++ [_; _; _; _]).
    cbn [app]. rewrite <- !app_assoc. reflexivity.
  - intros msg Hin. apply elem_of_cons in Hin as [Hin|Hin]; [discriminate|].
    apply elem_of_app in Hin as [Hin|Hin]; [destruct HL as [-> | ->]|];
      unfold error_events in Hin; elem_cases Hin.
  - intros label data file_name mime Hin.
    apply elem_of_cons in Hin as [Hin|Hin]; [discriminate|].
    apply elem_of_app in Hin as [Hin|Hin]; [destruct HL as [-> | ->]|];
      unfold error_events in Hin; elem_cases Hin.
  - by apply elem_of_union_l, elem_of_singleton_2.
Qed.

Lemma getitem_offered {V} (d : list (str * V)) (key : str) :
  key ∈ map fst d → is_Some (getitem d key).
Proof.
  induction d as [|[k v] d IH]; simpl.
  - intros H. by apply elem_of_nil in H.
  - intros H. case_decide; [by eexists|].
    apply elem_of_cons in H as [->|H]; [done|]. by apply IH.
Qed.

(** X15.  With a language that is one of the options of the select box,
    and an environment in which no call fails, a press of the button
    displays the results: the body does not raise (there is no [KeyError]),
    no error notice is drawn, and the press ends with the elements of the
    results for what Whisper returned. *)
Theorem healthy_press_displays_results (up : UploadedFile) (s : Settings)
    (w : World) :
  selected_language s ∈ map fst languages →
  (∀ w', load_model_error (model_size s) w' = None) →
  (∀ suffix w', ∃ p, tempfile_result suffix w' = inr p) →
  (∀ p data w', write_error p data w' = None) →
  (∀ m p language task w', ∃ r, transcribe_result m p language task w' = inr r) →
  (∀ p w', unlink_error p w' = None) →
  let news := new_events w (snd (press up s w)) in
  fst (body up s w) = Returned tt
  ∧ count is_error news = 0%nat
  ∧ ∃ calls tmp_path result,
      fst (lines_99_117 up s w) = Returned (tmp_path, result)
      ∧ news = calls ++ display_events upper up result.
Proof.
  intros Hlang Hload Htemp Hwrite Htrans Hunlink. cbn zeta.
  assert (Hbody : fst (body up s w) = Returned tt).
  { unfold transcribe_body, run_transcription, mbind, M_bind. cbn [st].
    pose proof (load_exact (model_size s) (log spinner_loading w)) as Hex.
    rewrite Hload in Hex.
    assert (Hl : ∃ m wl, load (model_size s) (log spinner_loading w)
                         = (Returned m, wl)).
    { destruct (model_cache _ !! _); [eauto|].
      destruct Hex as (w1 & -> & _). eauto. }
    destruct Hl as (m & wl & ->). cbv beta iota.
    unfold save_temporary_file.
    destruct (Htemp (path_suffix (name up)) wl) as [p ->]. cbv beta iota zeta.
    rewrite Hwrite. cbv beta iota.
    unfold languages_getitem.
    destruct (getitem_offered languages _ Hlang) as [lc ->].
    cbn [mret M_ret]. unfold model_transcribe.
    match goal with |- context [transcribe_result ?a ?b ?c ?d ?e] =>
      destruct (Htrans a b c d e) as [r ->] end.
    cbv beta iota. unfold mret, M_ret, os_unlink. cbv beta iota.
    rewrite Hunlink. cbv beta iota.
    by rewrite (display_results_run upper). }
  split; [done|].
  destruct (transcribe_audio_progress load_model_error tempfile_result
              write_error transcribe_result unlink_error path_suffix upper repr
              up s w)
    as (L & g & w1 & Hb & _ & -> & _ & _ & HL & Hg).
  rewrite Hb in Hbody. cbn [fst] in Hbody.
  destruct g; try discriminate.
  cbn [consistent] in Hg. destruct Hg as [_ Hrt].
  cbn [events_after_load handler_events outcome_of]. rewrite app_nil_r.
  split.
  - destruct HL as [-> | ->]; cbn [app count];
      rewrite ?count_display by (by intros []); reflexivity.
  - eexists (spinner_loading :: L ++ [_; _; _; _; _]), tmp_path, result.
    split; [done|]. cbn [app]. rewrite <- !app_assoc. reflexivity.
Qed.

End Process.

(** ** The script from top to bottom *)

Section TopToBottom.

Variable load_model_error : str -> World -> option Exn.
Variable tempfile_result : str -> World -> Exn + str.
Variable write_error : str -> list N -> World -> option Exn.
Variable transcribe_result :
  Model -> str -> option str -> str -> World -> Exn + Result.
Variable unlink_error : str -> World -> option Exn.
Variable path_suffix : str -> str.
Variable upper : str -> str.
Variable repr : str -> str.

Abbreviation press :=
  (transcribe_audio load_model_error tempfile_result write_error
     transcribe_result unlink_error path_suffix upper repr).
Abbreviation run :=
  (script load_model_error tempfile_result write_error
     transcribe_result unlink_error path_suffix upper repr).

(** A press of the button always leaves its mark. *)
Lemma press_changes_the_world (up : UploadedFile) (s : Settings) (w : World) :
  fst (press up s w) = Returned tt ∧ snd (press up s w) ≠ w.
Proof.
  destruct (transcribe_audio_progress load_model_error tempfile_result
              write_error transcribe_result unlink_error path_suffix upper repr
              up s w)
    as (L & g & w1 & _ & Hpress & Hnews & _).
  split; [by rewrite Hpress|].
  intros Heq. rewrite Heq in Hnews. unfold new_events in Hnews.
  by rewrite drop_all in Hnews.
Qed.


End TopToBottom.

(** ** These theorems at work on the concrete environment *)

(** What the process does in the environment where nothing fails. *)
Definition demo_does : World → World → Prop :=
  step (Demo.load_model_error Demo.NoFault) (Demo.tempfile_result Demo.NoFault)
    (Demo.write_error Demo.NoFault)
    (Demo.transcribe_result Demo.NoFault Demo.result)
    (Demo.unlink_error Demo.NoFault) Demo.path_suffix Demo.upper Demo.repr.

Lemma demo_world0_consistent : cache_consistent Demo.world0.
Proof. split; intros *; cbn [Demo.world0 model_cache]; by rewrite lookup_empty. Qed.

Lemma demo_load_then_press :
  let w1 := snd (Demo.load Demo.NoFault (py "base") Demo.world0) in
  let w2 := snd (Demo.press Demo.NoFault Demo.result Demo.french_to_english w1) in
  rtc demo_does Demo.world0 w1 ∧ rtc demo_does w1 w2.
Proof.
  cbn zeta. split; apply rtc_once.
  - apply (step_load (Demo.load_model_error Demo.NoFault)).
  - apply (step_button (Demo.load_model_error Demo.NoFault)).
Qed.

Lemma cache_holds_the_right_models_witness :
  let w1 := snd (Demo.load Demo.NoFault (py "base") Demo.world0) in
  cache_consistent Demo.world0
  ∧ rtc demo_does Demo.world0 w1
  ∧ cache_consistent w1
  ∧ model_name Demo.base_model = py "base".
Proof.
  cbn zeta.
  pose proof demo_world0_consistent as H0.
  pose proof (proj1 demo_load_then_press) as H1. cbn zeta in H1.
  destruct (cache_holds_the_right_models
              (Demo.load_model_error Demo.NoFault)
              (Demo.tempfile_result Demo.NoFault) (Demo.write_error Demo.NoFault)
              (Demo.transcribe_result Demo.NoFault Demo.result)
              (Demo.unlink_error Demo.NoFault) Demo.path_suffix Demo.upper Demo.repr
              Demo.world0 _ H0 H1) as (Hc & Hname & _).
  split; [exact H0|]. split; [exact H1|]. split; [exact Hc|].
  apply (Hname (py "base") Demo.base_model
           (snd (Demo.load Demo.NoFault (py "base") Demo.world0))).
  vm_compute. reflexivity.
Defined.

Lemma never_loaded_twice_witness :
  let w1 := snd (Demo.load Demo.NoFault (py "base") Demo.world0) in
  let w2 := snd (Demo.press Demo.NoFault Demo.result Demo.french_to_english w1) in
  model_cache w1 !! py "base" = Some Demo.base_model
  ∧ rtc demo_does w1 w2
  ∧ trace w2 = trace w1 ++ new_events w1 w2
  ∧ (call_load_model (py "base") ∉ new_events w1 w2).
Proof.
  cbn zeta.
  assert (H1 : model_cache (snd (Demo.load Demo.NoFault (py "base") Demo.world0))
               !! py "base" = Some Demo.base_model)
    by (vm_compute; reflexivity).
  pose proof (proj2 demo_load_then_press) as H2. cbn zeta in H2.
  split; [exact H1|]. split; [exact H2|].
  exact (never_loaded_twice
           (Demo.load_model_error Demo.NoFault)
           (Demo.tempfile_result Demo.NoFault) (Demo.write_error Demo.NoFault)
           (Demo.transcribe_result Demo.NoFault Demo.result)
           (Demo.unlink_error Demo.NoFault) Demo.path_suffix Demo.upper Demo.repr
           (py "base") Demo.base_model _ _ H1 H2).
Defined.

Lemma scratch_files_after_press_witness :
  let w := Demo.world0 in
  let w2 := snd (Demo.press Demo.NoFault Demo.result default_settings w) in
  st_success (py "✅ Transcription completed successfully!") ∈ new_events w w2
  ∧ call_unlink (py "/tmp/tmp2.wav") ∈ new_events w w2
  ∧ (py "/tmp/tmp2.wav" ∉ files w)
  ∧ files w2 = files w.
Proof.
  cbn zeta.
  assert (Hs : st_success (py "✅ Transcription completed successfully!")
               ∈ new_events Demo.world0
                   (snd (Demo.press Demo.NoFault Demo.result default_settings
                           Demo.world0)))
    by by_decision.
  assert (Hu : call_unlink (py "/tmp/tmp2.wav")
               ∈ new_events Demo.world0
                   (snd (Demo.press Demo.NoFault Demo.result default_settings
                           Demo.world0)))
    by by_decision.
  assert (Hf : py "/tmp/tmp2.wav" ∉ files Demo.world0)
    by apply not_elem_of_empty.
  split; [exact Hs|]. split; [exact Hu|]. split; [exact Hf|].
  exact (proj2 (proj2 (scratch_files_after_press
                         (Demo.load_model_error Demo.NoFault)
                         (Demo.tempfile_result Demo.NoFault)
                         (Demo.write_error Demo.NoFault)
                         (Demo.transcribe_result Demo.NoFault Demo.result)
                         (Demo.unlink_error Demo.NoFault)
                         Demo.path_suffix Demo.upper Demo.repr
                         Demo.upload default_settings Demo.world0))
           _ _ Hs Hu Hf).
Defined.

Lemma failed_delete_hides_the_result_witness :
  let w := Demo.world0 in
  let e := Demo.OSError "Permission denied" in
  let w0 :=
    snd (Demo.lines_99_117 Demo.UnlinkFails Demo.result default_settings w) in
  let w2 := snd (Demo.press Demo.UnlinkFails Demo.result default_settings w) in
  Demo.lines_99_117 Demo.UnlinkFails Demo.result default_settings w
  = (Returned (py "/tmp/tmp2.wav", Demo.result), w0)
  ∧ Demo.unlink_error Demo.UnlinkFails (py "/tmp/tmp2.wav") w0 = Some e
  ∧ w2 = add_events (error_events e) (log (call_unlink (py "/tmp/tmp2.wav")) w0)
  ∧ (∃ done_,
       new_events w w2 = done_ ++ call_unlink (py "/tmp/tmp2.wav") :: error_events e)
  ∧ (∀ msg, st_success msg ∉ new_events w w2)
  ∧ (∀ label data file_name mime,
       st_download_button label data file_name mime ∉ new_events w w2)
  ∧ py "/tmp/tmp2.wav" ∈ files w2.
Proof.
  cbn zeta.
  assert (H1 : Demo.lines_99_117 Demo.UnlinkFails Demo.result default_settings
                 Demo.world0
               = (Returned (py "/tmp/tmp2.wav", Demo.result),
                  snd (Demo.lines_99_117 Demo.UnlinkFails Demo.result
                         default_settings Demo.world0)))
    by (vm_compute; reflexivity).
  assert (H2 : Demo.unlink_error Demo.UnlinkFails (py "/tmp/tmp2.wav")
                 (snd (Demo.lines_99_117 Demo.UnlinkFails Demo.result
                         default_settings Demo.world0))
               = Some (Demo.OSError "Permission denied"))
    by reflexivity.
  split; [exact H1|]. split; [exact H2|].
  exact (failed_delete_hides_the_result
           (Demo.load_model_error Demo.UnlinkFails)
           (Demo.tempfile_result Demo.UnlinkFails)
           (Demo.write_error Demo.UnlinkFails)
           (Demo.transcribe_result Demo.UnlinkFails Demo.result)
           (Demo.unlink_error Demo.UnlinkFails)
           Demo.path_suffix Demo.upper Demo.repr
           Demo.upload default_settings Demo.world0 _ _ _ _ H1 H2).
Defined.

Lemma healthy_press_displays_results_witness :
  let w := Demo.world0 in
  let s := default_settings in
  let news := new_events w (snd (Demo.press Demo.NoFault Demo.result s w)) in
  selected_language s ∈ map fst languages
  ∧ fst (Demo.body Demo.NoFault Demo.result s w) = Returned tt
  ∧ count is_error news = 0%nat
  ∧ ∃ calls tmp_path result,
      fst (Demo.lines_99_117 Demo.NoFault Demo.result s w)
      = Returned (tmp_path, result)
      ∧ news = calls ++ display_events Demo.upper Demo.upload result.
Proof.
  cbn zeta.
  assert (Hlang : selected_language default_settings ∈ map fst languages)
    by by_decision.
  split; [exact Hlang|].
  apply (healthy_press_displays_results
           (Demo.load_model_error Demo.NoFault) (Demo.tempfile_result Demo.NoFault)
           (Demo.write_error Demo.NoFault)
           (Demo.transcribe_result Demo.NoFault Demo.result)
           (Demo.unlink_error Demo.NoFault) Demo.path_suffix Demo.upper Demo.repr
           Demo.upload default_settings Demo.world0 Hlang).
  - intros w'. vm_compute. reflexivity.
  - intros suffix w'. eexists. reflexivity.
  - intros p data w'. reflexivity.
  - intros m p language task w'. eexists. reflexivity.
  - intros p w'. reflexivity.
Defined.


Lemma audio_format_spec_witness :
  (DOT ∉ py "wav") ∧ audio_format (py "my.talk.wav") = Some (py "audio/wav").
Proof.
  assert (Hd : DOT ∉ py "wav") by by_decision.
  split; [exact Hd|].
  destruct (audio_format_spec (py "my.talk.wav")) as (ext & Heq & _ & _ & Hstem).
  rewrite (Hstem (py "my.talk") (py "wav") eq_refl Hd) in Heq. exact Heq.
Defined.

(** ** The model and the file of a transcription *)

Section Transcription.

Variable load_model_error : str -> World -> option Exn.
Variable tempfile_result : str -> World -> Exn + str.
Variable write_error : str -> list N -> World -> option Exn.
Variable transcribe_result :
  Model -> str -> option str -> str -> World -> Exn + Result.
Variable unlink_error : str -> World -> option Exn.
Variable path_suffix : str -> str.
Variable upper : str -> str.
Variable repr : str -> str.

Abbreviation load := (load_whisper_model load_model_error).
Abbreviation save := (save_temporary_file tempfile_result write_error).
Abbreviation body :=
  (transcribe_body load_model_error tempfile_result write_error
     transcribe_result unlink_error path_suffix upper repr).
Abbreviation press :=
  (transcribe_audio load_model_error tempfile_result write_error
     transcribe_result unlink_error path_suffix upper repr).

Local Opaque add_events py.

(** The model [model.transcribe] is called on is the one the cached
    loader returned. *)
Lemma body_uses_loaded_model (up : UploadedFile) (s : Settings) (w : World)
    (o : Outcome unit) (w1 : World) :
  body up s w = (o, w1) →
  ∀ m p l t, call_transcribe m p l t ∈ new_events w w1 →
    ∃ wl, load (model_size s) (log spinner_loading w) = (Returned m, wl).
Proof.
  intros Hbody m p l t Hin. revert Hbody Hin.
  unfold transcribe_body, run_transcription, mbind, M_bind. cbn [st].
  destruct (load (model_size s) (log spinner_loading w)) as [[m0|e] wl] eqn:Hload;
    apply load_spec in Hload as (_ & _ & L & Htl & Hl);
    cbn [trace log] in Htl.
  2:{ intros [= <- <-] Hin. destruct Hl as (-> & _).
      rewrite (new_events_app w wl [spinner_loading;
                                    call_load_model (model_size s)]) in Hin
        by (by rewrite Htl, <- app_assoc).
      elem_cases Hin. }
  assert (HL : L = [] ∨ L = [call_load_model (model_size s)])
    by (destruct Hl as [_ [[-> _]|[-> _]]]; auto).
  clear Hl.
  assert (Hcase : ∀ wx rest,
            trace wx = trace wl ++ rest →
            call_transcribe m p l t ∈ new_events w wx →
            (∀ mx px lx tx, call_transcribe mx px lx tx ∈ rest → mx = m0) →
            ∃ wl0 : World, (Returned m0, wl) = (Returned m, wl0)).
  { intros wx rest Hx Hin Hrest.
    rewrite (new_events_app w wx (spinner_loading :: L ++ rest)) in Hin
      by (by rewrite Hx, Htl, <- !app_assoc).
    apply elem_of_cons in Hin as [Hin|Hin]; [discriminate|].
    apply elem_of_app in Hin as [Hin|Hin].
    { destruct HL as [-> | ->]; elem_cases Hin. }
    apply Hrest in Hin as <-. by exists wl. }
  destruct (save _ _ wl) as [[q|e] ws] eqn:Hsave;
    apply save_spec in Hsave as (_ & Hs).
  2:{ intros [= <- <-] Hin.
      destruct Hs as [[Hts _]|(q & Hts & _)];
        eapply (Hcase _ _ Hts Hin); intros ???? Hr; elem_cases Hr. }
  destruct Hs as [Hts _].
  unfold languages_getitem.
  destruct (getitem languages (selected_language s)) as [lc|];
    cbn [raise mret M_ret].
  2:{ intros [= <- <-] Hin.
      eapply (Hcase _ [_; _; _]); [|exact Hin|].
      - cbn [trace log]. by rewrite Hts, <- !app_assoc.
      - intros ???? Hr; elem_cases Hr. }
  unfold model_transcribe.
  match goal with |- context [transcribe_result ?a ?b ?c ?d ?e] =>
    destruct (transcribe_result a b c d e) as [e'|r] end.
  { intros [= <- <-] Hin.
    eapply (Hcase _ [_; _; _; _]); [|exact Hin|].
    - cbn [trace log]. by rewrite Hts, <- !app_assoc.
    - intros ???? Hr; elem_cases Hr. by injection Hr as ->. }
  unfold mret, M_ret, os_unlink. cbv beta iota.
  match goal with |- context [unlink_error ?a ?b] =>
    destruct (unlink_error a b) as [e'|] end.
  { intros [= <- <-] Hin.
    eapply (Hcase _ [_; _; _; _; _]); [|exact Hin|].
    - cbn [trace log]. by rewrite Hts, <- !app_assoc.
    - intros ???? Hr; elem_cases Hr. by injection Hr as ->. }
  rewrite (display_results_run upper). intros [= <- <-] Hin.
  match type of Hin with context [add_events ?evs ?w0] =>
    destruct (add_events_frame evs w0) as (_ & _ & _ & Ht) end.
  eapply (Hcase _ ([_; _; _; _; _] ++ display_events upper up r));
    [|exact Hin|].
  - rewrite Ht. cbn [trace log]. by rewrite Hts, <- !app_assoc.
  - intros ???? Hr. unfold display_events in Hr. elem_cases Hr.
    by injection Hr as ->.
Qed.


(** X17.  What [model.transcribe] is called on: the model is the one in the
    cache for the selected size when the press is over, loaded for that
    size, and the file is the scratch file the uploaded bytes were written
    to just before. *)
Theorem transcribes_the_upload_with_the_selected_model (up : UploadedFile)
    (s : Settings) (w : World) (m : Model) (p : str) (l : option str) (t : str) :
  cache_consistent w →
  call_transcribe m p l t ∈ new_events w (snd (press up s w)) →
  model_name m = model_size s
  ∧ model_cache (snd (press up s w)) !! model_size s = Some m
  ∧ ∃ pre post,
      new_events w (snd (press up s w))
      = pre ++ [ call_write p (getvalue up); spinner_transcribing;
                 call_transcribe m p l t ] ++ post.
Proof.
  intros Hw Hin.
  destruct (body up s w) as [o w1] eqn:Hbody.
  destruct (transcribe_body_progress load_model_error tempfile_result
              write_error transcribe_result unlink_error path_suffix upper repr
              _ _ _ _ _ Hbody) as (L & g & Ho & Ht & _ & _ & HL & _).
  assert (Hnews : ∃ after_, (∀ m' p' l' t', call_transcribe m' p' l' t' ∉ after_)
            ∧ new_events w (snd (press up s w))
              = new_events w w1 ++ after_).
  { rewrite (press_unfold load_model_error tempfile_result write_error
               transcribe_result unlink_error path_suffix upper repr), Hbody.
    destruct o as [[]|e]; cbn [snd].
    - exists []. split; [intros; apply not_elem_of_nil|by rewrite app_nil_r].
    - exists (error_events e). split.
      + intros ???? Hr. unfold error_events in Hr. elem_cases Hr.
      + destruct (add_events_frame (error_events e) w1) as (_ & _ & _ & Hte).
        rewrite (new_events_app _ _ _ Ht).
        apply new_events_app. by rewrite Hte, Ht, <- app_assoc. }
  destruct Hnews as (after_ & Hafter & Hnews).
  rewrite Hnews in Hin |- *.
  apply elem_of_app in Hin as [Hin|Hin]; [|by apply Hafter in Hin].
  destruct (body_uses_loaded_model _ _ _ _ _ Hbody _ _ _ _ Hin) as [wl Hload].
  pose proof (load_keeps_consistent load_model_error (model_size s)
                (log spinner_loading w)) as Hcons.
  rewrite Hload in Hcons. cbn [snd] in Hcons.
  destruct Hcons as [Hname _]; [exact Hw|].
  pose proof Hload as Hm.
  apply load_spec in Hm as (_ & _ & _ & _ & Hm & _).
  destruct (press_after_load load_model_error tempfile_result write_error
              transcribe_result unlink_error path_suffix upper repr up s w)
    as (ol & wl' & rest & Hl & Hc & _).
  rewrite Hload in Hl. injection Hl as <- <-.
  split; [by destruct (Hname _ _ Hm)|]. split; [by rewrite Hc|].
  rewrite (new_events_app _ _ _ Ht) in Hin |- *.
  apply elem_of_cons in Hin as [Hin|Hin]; [discriminate|].
  apply elem_of_app in Hin as [Hin|Hin].
  { destruct HL as [-> | ->]; elem_cases Hin. }
  destruct g; cbn [events_after_load] in Hin |- *;
    unfold display_events in Hin; elem_cases Hin;
    injection Hin as -> -> -> ->;
    (eexists (spinner_loading :: L ++ [_]), _;
     cbn [app]; rewrite <- !app_assoc; cbn [app]; reflexivity).
Qed.

End Transcription.

Lemma transcribes_the_upload_with_the_selected_model_witness :
  let s := Demo.french_to_english in
  let w := Demo.world0 in
  let w2 := snd (Demo.press Demo.NoFault Demo.result s w) in
  let call :=
    call_transcribe Demo.base_model (py "/tmp/tmp2.wav") (Some (py "fr"))
      (py "translate") in
  cache_consistent w
  ∧ call ∈ new_events w w2
  ∧ model_name Demo.base_model = model_size s
  ∧ model_cache w2 !! model_size s = Some Demo.base_model
  ∧ ∃ pre post,
      new_events w w2
      = pre ++ [ call_write (py "/tmp/tmp2.wav") (getvalue Demo.upload);
                 spinner_transcribing; call ] ++ post.
Proof.
  cbn zeta.
  pose proof demo_world0_consistent as H0.
  assert (H1 : call_transcribe Demo.base_model (py "/tmp/tmp2.wav")
                 (Some (py "fr")) (py "translate")
               ∈ new_events Demo.world0
                   (snd (Demo.press Demo.NoFault Demo.result
                           Demo.french_to_english Demo.world0)))
    by by_decision.
  split; [exact H0|]. split; [exact H1|].
  exact (transcribes_the_upload_with_the_selected_model
           (Demo.load_model_error Demo.NoFault) (Demo.tempfile_result Demo.NoFault)
           (Demo.write_error Demo.NoFault)
           (Demo.transcribe_result Demo.NoFault Demo.result)
           (Demo.unlink_error Demo.NoFault) Demo.path_suffix Demo.upper Demo.repr
           Demo.upload Demo.french_to_english Demo.world0 _ _ _ _ H0 H1).
Defined.
